(** * Ingestion and retrieval pipeline of the image captioning API

    A shallow embedding of [app/services/ml_service.py] and of the upload and
    search handlers of [app/routers/images.py], with the properties of the
    pipeline proved over it.

    Conventions of the embedding:
    - a Python [float] that is finite is a rational number, and comparison of
      finite floats is comparison of rationals, so similarity scores and the
      threshold are values of [Q]; [==] on floats is [Qeq];
    - [bytes] is [list Byte.byte], [int] is [Z], and a [str] is the
      [string] of its UTF-8 encoding;
    - the pretrained models, [pickle], scikit-learn and Pillow are external
      libraries: they are the fields of the [MLBackend] class and every
      theorem holds for all of them;
    - the handlers run in a state-and-exception monad over a [world] made of
      the upload directory, the [images] table, the global [ml_service] and
      the log; calls on the file system do not fail, the loading of the
      models and the calls on the database session fail as the
      [environment] of the request says. *)

From Stdlib Require Import Ascii String QArith Qround Lqa.
From stdpp Require Import base list strings gmap pretty sorting.

Set Default Proof Using "Type".
Open Scope Z_scope.

Abbreviation bytes := (list Byte.byte).

(** ** Python exceptions *)

(** [HTTPException] is told apart from every other exception by
    [upload_image]; of the others only the class name and [str(e)] matter. *)
Inductive exn : Type :=
  | HTTPException (status_code : Z) (detail : string)
  | PyError (cls : string) (msg : string).

(** [str(e)]. *)
Definition str_exn (e : exn) : string :=
  match e with
  | HTTPException code detail => pretty code +:+ ": " +:+ detail
  | PyError _ msg => msg
  end.

Inductive outcome (A : Type) : Type :=
  | Return (a : A)
  | Raise (e : exn).
Arguments Return {A} a.
Arguments Raise {A} e.

(** An exception raised by a library, a model or the database driver:
    its class and [str(e)].  None of them raises [HTTPException]. *)
Record lib_error := { err_class : string; err_msg : string }.

Definition lib_exn (e : lib_error) : exn := PyError (err_class e) (err_msg e).

Definition is_Return {A} (o : outcome A) : bool :=
  match o with Return _ => true | Raise _ => false end.

(** ** Similarity Ranker: lines 176-185 of [search_images] *)

Section ranker.
Context {A : Type}.

Definition score (c : A * Q) : Q := c.2.

(** [if similarity >= threshold] of the list comprehension. *)
Definition passes (threshold : Q) (c : A * Q) : bool :=
  Qle_bool threshold (score c).

(** [list.sort(key=lambda x: x[1], reverse=True)]: Python's sort is stable,
    also with [reverse=True], and compares keys with [<] only.  The element
    inserted comes before every element of [l] in the input, so it is put
    in front of the first element whose key is not greater. *)
Fixpoint insert_desc (x : A * Q) (l : list (A * Q)) : list (A * Q) :=
  match l with
  | [] => [x]
  | y :: l' =>
      if Qle_bool (score y) (score x) then x :: y :: l'
      else y :: insert_desc x l'
  end.

Definition sort_desc (l : list (A * Q)) : list (A * Q) :=
  foldr insert_desc [] l.

(** The slice [l[:limit]]: a negative bound counts from the end. *)
Definition slice_to (limit : Z) (l : list (A * Q)) : list (A * Q) :=
  if limit <? 0 then take (length l - Z.to_nat (- limit)) l
  else take (Z.to_nat limit) l.

(** [zip(images, similarities)] filtered by the threshold, then sorted. *)
Definition filter_and_sort (threshold : Q) (images : list A)
    (similarities : list Q) : list (A * Q) :=
  sort_desc (List.filter (passes threshold) (zip images similarities)).

Definition rank (threshold : Q) (limit : Z) (images : list A)
    (similarities : list Q) : list (A * Q) :=
  slice_to limit (filter_and_sort threshold images similarities).

(** Scores in descending order. *)
Definition descending (l : list (A * Q)) : Prop :=
  StronglySorted (λ x y, (score y <= score x)%Q) l.

(** The candidates of [l] whose score equals [s], in the order of [l]. *)
Definition with_score (s : Q) (l : list (A * Q)) : list (A * Q) :=
  List.filter (λ c, Qeq_bool (score c) s) l.

End ranker.

(** ** Strings *)

(** [str.lower()] and [str.upper()] on ASCII letters. *)
Definition ascii_lower (c : ascii) : ascii :=
  let n := nat_of_ascii c in
  if ((65 <=? n) && (n <=? 90))%nat then ascii_of_nat (n + 32) else c.

Definition ascii_upper (c : ascii) : ascii :=
  let n := nat_of_ascii c in
  if ((97 <=? n) && (n <=? 122))%nat then ascii_of_nat (n - 32) else c.

Fixpoint string_map (f : ascii → ascii) (s : string) : string :=
  match s with
  | EmptyString => EmptyString
  | String c s' => String (f c) (string_map f s')
  end.

Definition lower : string → string := string_map ascii_lower.
Definition upper : string → string := string_map ascii_upper.

(** [s.split(".")[-1]]: what follows the last dot, all of [s] without one. *)
Fixpoint last_segment (acc s : string) : string :=
  match s with
  | EmptyString => acc
  | String c s' =>
      if Ascii.eqb c "." then last_segment EmptyString s'
      else last_segment (acc +:+ String c EmptyString) s'
  end.

Definition split_dot_last (s : string) : string := last_segment EmptyString s.

(** [sep.join(l)]. *)
Fixpoint join (sep : string) (l : list string) : string :=
  match l with
  | [] => EmptyString
  | [s] => s
  | s :: l' => s +:+ sep +:+ join sep l'
  end.

Definition string_in (s : string) (l : list string) : bool :=
  existsb (String.eqb s) l.

(** ** Data model *)

(** A row of the [images] table ([models/database.py]).  [upload_time] is
    kept in its ISO form, the only way the handlers use it. *)
Record ImageRecord := {
  id : Z;
  filename : string;
  caption : string;
  embedding : bytes;
  upload_time : string;
  file_path : string;
  file_size : Z;
  content_type : string;
}.

Record ImageResponse := {
  r_id : Z;
  r_filename : string;
  r_caption : string;
  r_upload_time : string;
  r_file_size : Z;
  r_content_type : string;
  similarity_score : option Q;
}.

Record SearchResponse := {
  query : string;
  total_results : Z;
  results : list ImageResponse;
}.

Record UploadResponse := {
  u_id : Z;
  u_filename : string;
  u_caption : string;
  u_upload_time : string;
  u_file_size : Z;
  message : string;
}.

(** The [UploadFile] of a multipart request. *)
Record UploadFile := {
  up_filename : option string;
  up_content_type : option string;
  up_content : bytes;
}.

(** Module-level settings of [routers/images.py], read from the process
    environment. *)
Record settings := {
  UPLOAD_DIR : string;
  MAX_FILE_SIZE : Z;
  ALLOWED_EXTENSIONS : list string;
}.

Definition default_settings : settings :=
  {| UPLOAD_DIR := "uploads";
     MAX_FILE_SIZE := 10485760;
     ALLOWED_EXTENSIONS := ["jpg"; "jpeg"; "png"] |}.

(** ** External libraries *)

(** What [MLService] calls: the sentence-embedding model, the captioning
    model (from the bytes of the image file to the decoded caption),
    [pickle], scikit-learn's [cosine_similarity] on one pair of vectors
    (converted by [float]), and Pillow's [Image.open(..).verify()]. *)
Class MLBackend := {
  ndarray : Type;
  embedding_model_encode : string → outcome ndarray;
  caption_model_generate : bytes → outcome string;
  pickle_dumps : ndarray → bytes;
  pickle_loads : bytes → outcome ndarray;
  cosine_similarity : ndarray → ndarray → outcome Q;
  image_verify : bytes → bool;
}.

(** What the surroundings decide during one request: the value of
    [uuid.uuid4()], the clock behind the [upload_time] default, the torch
    device, whether loading the models fails, and whether a call on the
    database session raises. *)
Inductive db_op : Type := DbQueryAll | DbAdd | DbCommit | DbRefresh.

Record environment := {
  uuid4 : string;
  utcnow : string;
  device : string;
  ml_init_fault : option lib_error;
  db_fault : db_op → option lib_error;
}.

(** ** State *)

Inductive log_record : Type :=
  | LogDebug (msg : string)
  | LogInfo (msg : string)
  | LogError (msg : string).

(** The upload directory (path to content), the [images] table, whether the
    global [ml_service] is set, and the log. *)
Record world := {
  fs : gmap string bytes;
  images_table : list ImageRecord;
  ml_service_loaded : bool;
  log : list log_record;
}.

Definition M (A : Type) : Type := world → outcome A * world.

#[global] Instance M_ret : MRet M := λ A a w, (Return a, w).
#[global] Instance M_bind : MBind M := λ A B f m w,
  match m w with
  | (Return a, w') => f a w'
  | (Raise e, w') => (Raise e, w')
  end.

Definition raise {A} (e : exn) : M A := λ w, (Raise e, w).

(** [try: m  except Exception as e: h e]. *)
Definition try_except {A} (m : M A) (h : exn → M A) : M A := λ w,
  match m w with
  | (Return a, w') => (Return a, w')
  | (Raise e, w') => h e w'
  end.

Definition lift {A} (o : outcome A) : M A := λ w, (o, w).

Definition logger (r : log_record) : M unit := λ w,
  (Return tt,
   {| fs := fs w; images_table := images_table w;
      ml_service_loaded := ml_service_loaded w; log := log w ++ [r] |}).

Definition set_fs (f : gmap string bytes) (w : world) : world :=
  {| fs := f; images_table := images_table w;
     ml_service_loaded := ml_service_loaded w; log := log w |}.

Definition set_images_table (t : list ImageRecord) (w : world) : world :=
  {| fs := fs w; images_table := t;
     ml_service_loaded := ml_service_loaded w; log := log w |}.

Definition set_ml_service_loaded (b : bool) (w : world) : world :=
  {| fs := fs w; images_table := images_table w;
     ml_service_loaded := b; log := log w |}.

#[global] Instance outcome_ret : MRet outcome := λ A a, Return a.
#[global] Instance outcome_bind : MBind outcome := λ A B f o,
  match o with
  | Return a => f a
  | Raise e => Raise e
  end.

(** ** The file system and the database session *)

(** [open(path, "wb")] followed by [write]. *)
Definition file_write (path : string) (content : bytes) : M unit := λ w,
  (Return tt, set_fs (<[path:=content]> (fs w)) w).

Definition os_path_exists (path : string) : M bool := λ w,
  (Return (bool_decide (is_Some (fs w !! path))), w).

Definition os_remove (path : string) : M unit := λ w,
  match fs w !! path with
  | Some _ => (Return tt, set_fs (delete path (fs w)) w)
  | None => (Raise (PyError "FileNotFoundError" path), w)
  end.

Definition file_read (path : string) : M bytes := λ w,
  match fs w !! path with
  | Some content => (Return content, w)
  | None => (Raise (PyError "FileNotFoundError" path), w)
  end.

Definition db_call (env : environment) (op : db_op) : M unit :=
  match db_fault env op with
  | Some e => raise (lib_exn e)
  | None => mret tt
  end.

Definition read_images_table : M (list ImageRecord) := λ w,
  (Return (images_table w), w).

(** [db.query(ImageRecord).all()]. *)
Definition db_query_all (env : environment) : M (list ImageRecord) :=
  db_call env DbQueryAll;; read_images_table.

(** The fields [upload_image] passes to the [ImageRecord] constructor. *)
Record NewImage := {
  n_filename : string;
  n_caption : string;
  n_embedding : bytes;
  n_file_path : string;
  n_file_size : Z;
  n_content_type : string;
}.

Definition next_id (t : list ImageRecord) : Z :=
  1 + foldr Z.max 0 (id <$> t).

(** The INSERT of one new object: the primary key and the [upload_time]
    default are filled in and the row becomes visible; [filename] is
    declared [unique=True]. *)
Definition insert_row (env : environment) (new : NewImage) : M ImageRecord :=
  λ w,
    if existsb (λ r, String.eqb (filename r) (n_filename new)) (images_table w)
    then (Raise (PyError "IntegrityError"
                   "UNIQUE constraint failed: images.filename"), w)
    else
      let row :=
        {| id := next_id (images_table w);
           filename := n_filename new;
           caption := n_caption new;
           embedding := n_embedding new;
           upload_time := utcnow env;
           file_path := n_file_path new;
           file_size := n_file_size new;
           content_type := n_content_type new |} in
      (Return row, set_images_table (images_table w ++ [row]) w).

(** [db.commit()] of a session holding one new object. *)
Definition db_commit (env : environment) (new : NewImage) : M ImageRecord :=
  db_call env DbCommit;; insert_row env new.

(** ** [services/ml_service.py] *)

Section service.
Context `{!MLBackend}.

Definition mark_ml_service_loaded : M unit := λ w,
  (Return tt, set_ml_service_loaded true w).

(** [MLService.__init__]. *)
Definition MLService_init (env : environment) : M unit :=
  logger (LogInfo "Initializing ML models...");;
  match ml_init_fault env with
  | Some e =>
      logger (LogError ("Error initializing ML models: " +:+ err_msg e));;
      raise (lib_exn e)
  | None =>
      logger (LogInfo ("ML models initialized successfully on device: "
                       +:+ device env));;
      mark_ml_service_loaded
  end.

(** [get_ml_service]: the global instance is built on first use. *)
Definition get_ml_service (env : environment) : M unit := λ w,
  if ml_service_loaded w then (Return tt, w) else MLService_init env w.

Definition generate_caption (image_path : string) : M string :=
  try_except
    (logger (LogInfo ("Generating caption for image: " +:+ image_path));;
     content ← file_read image_path;
     caption ← lift (caption_model_generate content);
     logger (LogInfo ("Generated caption: " +:+ caption));;
     mret caption)
    (λ e,
       logger (LogError ("Error generating caption: " +:+ str_exn e));;
       raise (PyError "Exception" ("Error generating caption: " +:+ str_exn e))).

Definition generate_embedding (text : string) : M ndarray :=
  try_except
    (logger (LogDebug ("Generating embedding for text: "
                       +:+ String.substring 0 50 text +:+ "..."));;
     lift (embedding_model_encode text))
    (λ e,
       logger (LogError ("Error generating embedding: " +:+ str_exn e));;
       raise (PyError "Exception"
                ("Error generating embedding: " +:+ str_exn e))).

Definition serialize_embedding (embedding : ndarray) : bytes :=
  pickle_dumps embedding.

Definition deserialize_embedding (embedding_bytes : bytes) : outcome ndarray :=
  pickle_loads embedding_bytes.

(** The loop of [calculate_similarity]: one score per stored embedding, in
    order, the first exception ending it. *)
Definition calculate_similarity (query_embedding : ndarray)
    (stored_embeddings : list ndarray) : outcome (list Q) :=
  mapM (cosine_similarity query_embedding) stored_embeddings.

End service.

(** ** [routers/images.py]: search *)

(** [round(x, 4)]: to the nearest multiple of 1/10000, a tie to the even
    one. *)
Definition round_half_even (q : Q) : Z :=
  let n := Qfloor q in
  match ((q - inject_Z n) ?= 1 # 2)%Q with
  | Lt => n
  | Gt => n + 1
  | Eq => if Z.even n then n else n + 1
  end.

Definition round4 (q : Q) : Q := round_half_even (q * 10000) # 10000.

Definition image_response (c : ImageRecord * Q) : ImageResponse :=
  {| r_id := id c.1;
     r_filename := filename c.1;
     r_caption := caption c.1;
     r_upload_time := upload_time c.1;
     r_file_size := file_size c.1;
     r_content_type := content_type c.1;
     similarity_score := Some (round4 c.2) |}.

(** The score a response shows for an item. *)
Definition reported_score (r : ImageResponse) : Q :=
  default 0%Q (similarity_score r).

Section search.
Context `{!MLBackend}.

(** The loop filling [stored_embeddings]. *)
Definition load_embeddings (images : list ImageRecord) : outcome (list ndarray) :=
  mapM (λ image, deserialize_embedding (embedding image)) images.

(** The body of [search_images], its parameters already validated. *)
Definition search_images (env : environment) (q : string) (limit : Z)
    (threshold : Q) (current_user : string) : M SearchResponse :=
  try_except
    (logger (LogInfo ("Searching images with query: '" +:+ q
                      +:+ "' by user " +:+ current_user));;
     get_ml_service env;;
     query_embedding ← generate_embedding q;
     images ← db_query_all env;
     match images with
     | [] => mret {| query := q; total_results := 0; results := [] |}
     | _ =>
         stored_embeddings ← lift (load_embeddings images);
         similarities ←
           lift (calculate_similarity query_embedding stored_embeddings);
         let image_similarities :=
           filter_and_sort threshold images similarities in
         let results :=
           image_response <$> slice_to limit image_similarities in
         logger (LogInfo ("Found " +:+ pretty (length results)
                          +:+ " matching images for query: '" +:+ q +:+ "'"));;
         mret {| query := q;
                 total_results := Z.of_nat (length results);
                 results := results |}
     end)
    (λ e,
       logger (LogError ("Error searching images: " +:+ str_exn e));;
       raise (HTTPException 500 ("Error searching images: " +:+ str_exn e))).

(** The query string of [GET /images/search], its values parsed. *)
Record search_request := {
  q_query : option string;
  q_limit : option Z;
  q_threshold : option Q;
}.

(** The declared parameters: [query: str = Query(..., min_length=1)],
    [limit: int = Query(3, ge=1, le=20)] and
    [threshold: float = Query(0.0, ge=0.0, le=1.0)].  A request that breaks
    one of them is answered with status 422 and the handler is not called;
    the body of that answer, the list of the constraints broken, is not
    modelled.  [current_user] is the user [get_current_user] has
    authenticated. *)
Definition limit_param (r : search_request) : Z := default 3 (q_limit r).
Definition threshold_param (r : search_request) : Q := default 0%Q (q_threshold r).

Definition limit_ok (limit : Z) : bool := (1 <=? limit) && (limit <=? 20).

Definition threshold_ok (threshold : Q) : bool :=
  Qle_bool 0 threshold && Qle_bool threshold 1.

Definition query_ok (r : search_request) : bool :=
  match q_query r with
  | Some q => (1 <=? String.length q)%nat
  | None => false
  end.

Definition params_ok (r : search_request) : bool :=
  query_ok r && limit_ok (limit_param r) && threshold_ok (threshold_param r).

Definition search_endpoint (env : environment) (r : search_request)
    (current_user : string) : M SearchResponse :=
  if params_ok r then
    search_images env (default EmptyString (q_query r)) (limit_param r)
      (threshold_param r) current_user
  else raise (HTTPException 422 "Unprocessable Entity").

End search.

(** ** [routers/images.py]: upload *)

Definition validate_image_file (cfg : settings) (file : UploadFile) : outcome unit :=
  if negb (String.prefix "image/" (default EmptyString (up_content_type file)))
  then Raise (HTTPException 400 "File must be an image")
  else
    match up_filename file with
    | Some (String c name) =>
        let file_extension := lower (split_dot_last (String c name)) in
        if string_in file_extension (ALLOWED_EXTENSIONS cfg) then Return tt
        else Raise (HTTPException 400
                      ("Only " +:+ upper (join ", " (ALLOWED_EXTENSIONS cfg))
                       +:+ " images are supported"))
    | _ => Return tt
    end.

Section upload.
Context `{!MLBackend}.

(** [Image.open(file_path)] and [img.verify()]. *)
Definition verify_image (file_path : string) : M unit :=
  content ← file_read file_path;
  if image_verify content then mret tt
  else raise (PyError "UnidentifiedImageError" "cannot identify image file").

(** The stages that follow the binding of [file_path]. *)
Definition store_and_process (env : environment) (file : UploadFile)
    (unique_filename file_path current_user : string) : M UploadResponse :=
  let file_content := up_content file in
  file_write file_path file_content;;
  try_except (verify_image file_path)
    (λ _, os_remove file_path;;
          raise (HTTPException 400 "Invalid or corrupted image file"));;
  get_ml_service env;;
  text ← generate_caption file_path;
  vector ← generate_embedding text;
  let embedding_bytes := serialize_embedding vector in
  db_call env DbAdd;;
  db_image ← db_commit env
    {| n_filename := unique_filename;
       n_caption := text;
       n_embedding := embedding_bytes;
       n_file_path := file_path;
       n_file_size := Z.of_nat (length file_content);
       n_content_type := default EmptyString (up_content_type file) |};
  db_call env DbRefresh;;
  logger (LogInfo ("Image uploaded successfully: " +:+ unique_filename
                   +:+ " by user " +:+ current_user));;
  mret {| u_id := id db_image;
          u_filename := filename db_image;
          u_caption := caption db_image;
          u_upload_time := upload_time db_image;
          u_file_size := file_size db_image;
          message := "Image uploaded and processed successfully" |}.

(** [if 'file_path' in locals() and os.path.exists(file_path):
    os.remove(file_path)] with [file_path] bound. *)
Definition clean_up (file_path : string) : M unit :=
  present ← os_path_exists file_path;
  if present : bool then os_remove file_path else mret tt.

(** The two [except] clauses of [upload_image]; [cleanup] is [clean_up] once
    [file_path] is bound and nothing before. *)
Definition upload_except (cleanup : M unit) (e : exn) : M UploadResponse :=
  match e with
  | HTTPException _ _ => raise e
  | PyError _ _ =>
      cleanup;;
      logger (LogError ("Error uploading image: " +:+ str_exn e));;
      raise (HTTPException 500 ("Error processing image: " +:+ str_exn e))
  end.

Definition upload_file_path (cfg : settings) (env : environment)
    (name : string) : string * string :=
  let file_extension := lower (split_dot_last name) in
  let unique_filename := uuid4 env +:+ "." +:+ file_extension in
  (unique_filename, UPLOAD_DIR cfg +:+ "/" +:+ unique_filename).

Definition upload_image (cfg : settings) (env : environment)
    (file : UploadFile) (current_user : string) : M UploadResponse :=
  try_except
    (lift (validate_image_file cfg file);;
     if MAX_FILE_SIZE cfg <? Z.of_nat (length (up_content file)) then
       raise (HTTPException 400
                ("File size exceeds maximum limit of "
                 +:+ pretty (MAX_FILE_SIZE cfg) +:+ " bytes"))
     else
       match up_filename file with
       | None =>
           raise (PyError "AttributeError"
                    "'NoneType' object has no attribute 'split'")
       | Some name =>
           let '(unique_filename, file_path) := upload_file_path cfg env name in
           try_except
             (store_and_process env file unique_filename file_path current_user)
             (upload_except (clean_up file_path))
       end)
    (upload_except (mret tt)).

End upload.

(** ** The scored candidate set *)

(** What a search ranks: the stored rows in table order, each with the
    similarity of its decoded vector to the query's vector. *)
Definition scored_candidates `{!MLBackend} (q : string)
    (images : list ImageRecord) : outcome (list (ImageRecord * Q)) :=
  query_embedding ← embedding_model_encode q;
  stored_embeddings ← load_embeddings images;
  similarities ← calculate_similarity query_embedding stored_embeddings;
  mret (zip images similarities).

(** The similarity of a stored row to a query: the query is encoded, the
    blob of the row decoded, and the two vectors compared. *)
Definition similarity_of `{!MLBackend} (q : string) (image : ImageRecord)
    : outcome Q :=
  query_embedding ← embedding_model_encode q;
  stored_embedding ← deserialize_embedding (embedding image);
  cosine_similarity query_embedding stored_embedding.

Definition result_count (o : outcome SearchResponse) : nat :=
  match o with
  | Return resp => length (results resp)
  | Raise _ => 0
  end.

(** ** A small executable backend

    Integer vectors of three components stand for embeddings, so that the
    handlers can be run on concrete requests.  The theorems hold for every
    backend; this one serves the runs at the end. *)

Module Toy.

Fixpoint count_char (c : ascii) (s : string) : Z :=
  match s with
  | EmptyString => 0
  | String d s' => (if Ascii.eqb c d then 1 else 0) + count_char c s'
  end.

(** The numbers of r, g and b in the text. *)
Definition encode (text : string) : outcome (list Z) :=
  Return [count_char "r" text; count_char "g" text; count_char "b" text].

Definition dot (a b : list Z) : Z := foldr Z.add 0 (zip_with Z.mul a b).

(** Integer norm, a zero norm replaced by one. *)
Definition norm (a : list Z) : Z :=
  let n := Z.sqrt (dot a a) in if n =? 0 then 1 else n.

Definition cosine (a b : list Z) : outcome Q :=
  if (length a =? length b)%nat
  then Return (dot a b # Z.to_pos (norm a * norm b))
  else Raise (PyError "ValueError"
                "Incompatible dimension for X and Y matrices").

Definition byte_of_Z (x : Z) : Byte.byte :=
  default Byte.x00 (Byte.of_N (Z.to_N (x mod 256))).

Definition Z_of_byte (b : Byte.byte) : Z := Z.of_N (Byte.to_N b).

(** A length byte followed by one byte per component.  Like [pickle.loads],
    [loads] raises [EOFError] on an empty input. *)
Definition dumps (v : list Z) : bytes :=
  byte_of_Z (Z.of_nat (length v)) :: (byte_of_Z <$> v).

Definition loads (b : bytes) : outcome (list Z) :=
  match b with
  | [] => Raise (PyError "EOFError" "Ran out of input")
  | n :: rest =>
      if Z_of_byte n =? Z.of_nat (length rest) then Return (Z_of_byte <$> rest)
      else Raise (PyError "UnpicklingError" "pickle data was truncated")
  end.

(** An image file is the two bytes of the JPEG start marker and one byte
    that selects the caption. *)
Definition verify (content : bytes) : bool :=
  match content with
  | Byte.xff :: Byte.xd8 :: _ => true
  | _ => false
  end.

Definition describe (content : bytes) : outcome string :=
  match content with
  | _ :: _ :: Byte.x01 :: _ => Return "a red square"
  | _ :: _ :: Byte.x02 :: _ => Return "green grass"
  | _ :: _ :: _ :: _ => Return "a blue bird"
  | _ => Raise (PyError "OSError" "image file is truncated")
  end.

#[export] Instance backend : MLBackend :=
  {| ndarray := list Z;
     embedding_model_encode := encode;
     caption_model_generate := describe;
     pickle_dumps := dumps;
     pickle_loads := loads;
     cosine_similarity := cosine;
     image_verify := verify |}.

(** The same backend with an embedding model that raises. *)
Definition failing_encoder (e : exn) : MLBackend :=
  {| ndarray := list Z;
     embedding_model_encode := λ _, Raise e;
     caption_model_generate := describe;
     pickle_dumps := dumps;
     pickle_loads := loads;
     cosine_similarity := cosine;
     image_verify := verify |}.

Definition env : environment :=
  {| uuid4 := "0b5c7e52-6f0e-4c58-9d4b-2f1a3c8e7a10";
     utcnow := "2024-05-01T12:00:00";
     device := "cpu";
     ml_init_fault := None;
     db_fault := λ _, None |}.

Definition row (i : Z) (name text : string) (blob : bytes) : ImageRecord :=
  {| id := i;
     filename := name;
     caption := text;
     embedding := blob;
     upload_time := "2024-05-01T12:00:00";
     file_path := "uploads/" +:+ name;
     file_size := 3;
     content_type := "image/jpeg" |}.

Definition world_of (t : list ImageRecord) : world :=
  {| fs := ∅; images_table := t; ml_service_loaded := false; log := [] |}.

Definition red : ImageRecord := row 1 "a.jpg" "a red square" (dumps [2; 0; 0]).
Definition grass : ImageRecord := row 2 "b.jpg" "green grass" (dumps [2; 2; 0]).
Definition bird : ImageRecord := row 3 "c.jpg" "a blue bird" (dumps [1; 0; 2]).
Definition red2 : ImageRecord := row 4 "d.jpg" "a red square" (dumps [2; 0; 0]).

(** A row whose blob was cut to nothing. *)
Definition corrupt : ImageRecord := row 5 "e.jpg" "a red door" [].

Definition request (q : string) (limit : option Z) (threshold : option Q)
    : search_request :=
  {| q_query := Some q; q_limit := limit; q_threshold := threshold |}.

Definition jpeg (c : Byte.byte) : UploadFile :=
  {| up_filename := Some "photo.JPG";
     up_content_type := Some "image/jpeg";
     up_content := [Byte.xff; Byte.xd8; c] |}.

(** The response of a run that answered. *)
Definition answer (o : outcome SearchResponse) : SearchResponse :=
  match o with
  | Return resp => resp
  | Raise _ => {| query := EmptyString; total_results := 0; results := [] |}
  end.

(** The database refuses one call of the session. *)
Definition env_db_fails (op : db_op) : environment :=
  {| uuid4 := uuid4 env;
     utcnow := utcnow env;
     device := device env;
     ml_init_fault := None;
     db_fault := λ op',
       match op, op' with
       | DbQueryAll, DbQueryAll | DbAdd, DbAdd
       | DbCommit, DbCommit | DbRefresh, DbRefresh =>
           Some {| err_class := "OperationalError";
                   err_msg := "database is locked" |}
       | _, _ => None
       end |}.

End Toy.

(** ** Three statements of the specification, as they are worded *)




(** "A decode failure on one item is logged and that item is skipped, not
    fatal to the whole query": the search answers as it does on the table
    without the rows that do not decode. *)
Definition decodes `{!MLBackend} (image : ImageRecord) : bool :=
  is_Return (deserialize_embedding (embedding image)).

Definition skips_corrupt_items `{!MLBackend} (env : environment) (q : string)
    (limit : Z) (threshold : Q) (user : string) (w : world) : Prop :=
  ∃ resp,
    (search_images env q limit threshold user w).1 = Return resp ∧
    (search_images env q limit threshold user
       (set_images_table (List.filter decodes (images_table w)) w)).1
      = Return resp.

(** "Any failure before [Stored] is terminal for that attempt: no partial
    record is visible to Retrieval", and the bytes written are deleted: an
    upload that reports a failure leaves neither the file nor a row. *)
Definition failed_upload_leaves_nothing `{!MLBackend} (cfg : settings)
    (env : environment) (file : UploadFile) (user name : string) (w : world)
    : Prop :=
  ∀ e,
    (upload_image cfg env file user w).1 = Raise e →
    fs (upload_image cfg env file user w).2
      !! (upload_file_path cfg env name).2 = None ∧
    images_table (upload_image cfg env file user w).2 = images_table w.

(** ** The outcome of a search as a function of the table

    [search_result] is what [search_images] answers, without the state: it
    is proved equal to the first component of a run in
    [search_images_run]. *)

Section search_result.
Context `{!MLBackend}.

Definition models_ready (env : environment) (loaded : bool) : outcome unit :=
  if loaded then Return tt
  else match ml_init_fault env with
       | Some e => Raise (lib_exn e)
       | None => Return tt
       end.

Definition embedding_of (text : string) : outcome ndarray :=
  match embedding_model_encode text with
  | Return v => Return v
  | Raise e =>
      Raise (PyError "Exception" ("Error generating embedding: " +:+ str_exn e))
  end.

Definition db_ready (env : environment) (op : db_op) : outcome unit :=
  match db_fault env op with
  | Some e => Raise (lib_exn e)
  | None => Return tt
  end.

Definition search_error {A} (o : outcome A) : outcome A :=
  match o with
  | Return a => Return a
  | Raise e => Raise (HTTPException 500 ("Error searching images: " +:+ str_exn e))
  end.

Definition search_response (q : string) (ranked : list (ImageRecord * Q))
    : SearchResponse :=
  {| query := q;
     total_results := Z.of_nat (length (image_response <$> ranked));
     results := image_response <$> ranked |}.

Definition search_result (env : environment) (q : string) (limit : Z)
    (threshold : Q) (loaded : bool) (images : list ImageRecord)
    : outcome SearchResponse :=
  search_error
    (models_ready env loaded;;
     query_embedding ← embedding_of q;
     db_ready env DbQueryAll;;
     match images with
     | [] => Return {| query := q; total_results := 0; results := [] |}
     | _ =>
         stored_embeddings ← load_embeddings images;
         similarities ← calculate_similarity query_embedding stored_embeddings;
         Return (search_response q (rank threshold limit images similarities))
     end).

End search_result.

(** ** The stages of an upload

    The stages that follow the write of the file, in the order of
    [upload_image], and the first of them that fails in a given state:
    the verification of the image, the loading of the models, the
    captioning, the embedding of the caption, the store in the database
    ([db.add] and [db.commit]) and the read-back of the stored row
    ([db.refresh]). *)

Inductive stage : Type :=
  | Verification
  | ModelLoading
  | Captioning
  | Embedding
  | DatabaseStore
  | ReadBack.

Definition faulty (env : environment) (op : db_op) : bool :=
  match db_fault env op with
  | Some _ => true
  | None => false
  end.

Definition filename_taken (name : string) (w : world) : bool :=
  existsb (λ r, String.eqb (filename r) name) (images_table w).

Definition failing_stage `{!MLBackend} (env : environment) (file : UploadFile)
    (unique_filename : string) (w : world) : option stage :=
  if negb (image_verify (up_content file)) then Some Verification
  else if negb (is_Return (models_ready env (ml_service_loaded w)))
  then Some ModelLoading
  else
    match caption_model_generate (up_content file) with
    | Raise _ => Some Captioning
    | Return text =>
        if negb (is_Return (embedding_model_encode text)) then Some Embedding
        else if faulty env DbAdd || faulty env DbCommit
                || filename_taken unique_filename w
        then Some DatabaseStore
        else if faulty env DbRefresh then Some ReadBack
        else None
    end.

(** ** [routers/images.py]: details, download, delete and history *)

Definition gets {A} (f : world → A) : M A := λ w, (Return (f w), w).

(** The row a query [filter(ImageRecord.id == image_id).first()] finds:
    [id] is the primary key, so at most one row matches. *)
Definition find_image (image_id : Z) (t : list ImageRecord)
    : option ImageRecord :=
  List.find (λ r, id r =? image_id) t.

(** [DbQueryAll] stands for the read query of the request. *)
Definition db_query_first (env : environment) (image_id : Z)
    : M (option ImageRecord) :=
  db_call env DbQueryAll;; gets (λ w, find_image image_id (images_table w)).

(** An [ImageResponse] built without [similarity_score]. *)
Definition details_response (image : ImageRecord) : ImageResponse :=
  {| r_id := id image;
     r_filename := filename image;
     r_caption := caption image;
     r_upload_time := upload_time image;
     r_file_size := file_size image;
     r_content_type := content_type image;
     similarity_score := None |}.

Definition get_image_details (env : environment) (image_id : Z)
    (current_user : string) : M ImageResponse :=
  image ← db_query_first env image_id;
  match image with
  | None => raise (HTTPException 404 "Image not found")
  | Some image => mret (details_response image)
  end.

(** [FileResponse(path=.., filename=.., media_type=..)]; its body is the
    content of the file at [path] when the response is sent. *)
Record FileResponse := {
  fr_path : string;
  fr_filename : string;
  fr_media_type : string;
}.

Definition served_content (w : world) (resp : FileResponse) : option bytes :=
  fs w !! fr_path resp.

Definition download_image (env : environment) (image_id : Z)
    (current_user : string) : M FileResponse :=
  image ← db_query_first env image_id;
  match image with
  | None => raise (HTTPException 404 "Image not found")
  | Some image =>
      present ← os_path_exists (file_path image);
      if present : bool then
        mret {| fr_path := file_path image;
                fr_filename := filename image;
                fr_media_type := content_type image |}
      else raise (HTTPException 404 "Image file not found on disk")
  end.

(** [db.delete(image)] and [db.commit()]: the DELETE of the row of that
    primary key. *)
Definition without_id (image_id : Z) (t : list ImageRecord)
    : list ImageRecord :=
  List.filter (λ r, negb (id r =? image_id)) t.

Definition delete_row (image : ImageRecord) : M unit := λ w,
  (Return tt, set_images_table (without_id (id image) (images_table w)) w).

Definition db_delete_commit (env : environment) (image : ImageRecord)
    : M unit :=
  db_call env DbCommit;; delete_row image.

Definition delete_image (env : environment) (image_id : Z)
    (current_user : string) : M string :=
  image ← db_query_first env image_id;
  match image with
  | None => raise (HTTPException 404 "Image not found")
  | Some image =>
      try_except
        (present ← os_path_exists (file_path image);
         (if present : bool then os_remove (file_path image) else mret tt);;
         db_delete_commit env image;;
         logger (LogInfo ("Image deleted: " +:+ filename image
                          +:+ " by user " +:+ current_user));;
         mret "Image deleted successfully")
        (λ e,
           logger (LogError ("Error deleting image: " +:+ str_exn e));;
           raise (HTTPException 500 "Error deleting image"))
  end.

(** [order_by(ImageRecord.upload_time.desc()).offset(offset).limit(limit)
    .all()]: the order among rows of one [upload_time] is the database's,
    so the ordering is an argument.  The body is reached with the validated
    values only, [limit] from 1 to 100 and [offset] not negative. *)
Definition query_history (order_by : list ImageRecord → list ImageRecord)
    (limit offset : Z) (t : list ImageRecord) : list ImageRecord :=
  take (Z.to_nat limit) (drop (Z.to_nat offset) (order_by t)).

Definition get_image_history (order_by : list ImageRecord → list ImageRecord)
    (env : environment) (limit offset : Z) (current_user : string)
    : M (list ImageResponse) :=
  try_except
    (db_call env DbQueryAll;;
     images ← gets (λ w, query_history order_by limit offset (images_table w));
     mret (details_response <$> images))
    (λ e,
       logger (LogError ("Error getting image history: " +:+ str_exn e));;
       raise (HTTPException 500 "Error retrieving image history")).

Record history_request := {
  h_limit : option Z;
  h_offset : option Z;
}.

(** [limit: int = Query(50, ge=1, le=100)] and
    [offset: int = Query(0, ge=0)]. *)
Definition history_limit (r : history_request) : Z := default 50 (h_limit r).
Definition history_offset (r : history_request) : Z := default 0 (h_offset r).

Definition history_params_ok (r : history_request) : bool :=
  (1 <=? history_limit r) && (history_limit r <=? 100)
  && (0 <=? history_offset r).

Definition history_endpoint (order_by : list ImageRecord → list ImageRecord)
    (env : environment) (r : history_request) (current_user : string)
    : M (list ImageResponse) :=
  if history_params_ok r then
    get_image_history order_by env (history_limit r) (history_offset r)
      current_user
  else raise (HTTPException 422 "Unprocessable Entity").

(** ** [main.py]: the handler of unhandled exceptions *)

(** An [HTTPException] is answered with its own status and detail; any
    other exception that leaves a route reaches [global_exception_handler]. *)
Definition global_exception_handler {A} (route : M A) : M A :=
  try_except route
    (λ e,
       match e with
       | HTTPException _ _ => raise e
       | PyError _ _ =>
           logger (LogError ("Global exception handler caught: "
                             +:+ str_exn e));;
           raise (HTTPException 500 "Internal server error occurred")
       end).

(** ** [utils/helpers.py] *)

(** [\w] on ASCII characters: letters, digits and the underscore. *)
Definition is_word_char (c : ascii) : bool :=
  let n := nat_of_ascii c in
  (((48 <=? n) && (n <=? 57)) || ((65 <=? n) && (n <=? 90))
   || ((97 <=? n) && (n <=? 122)) || (n =? 95))%nat.

(** The characters [re.sub(r'[^\w\-_\.]', '_', ..)] leaves in place. *)
Definition kept_char (c : ascii) : bool :=
  is_word_char c || Ascii.eqb c "-" || Ascii.eqb c "_" || Ascii.eqb c ".".

Definition clean_filename (name : string) : string :=
  string_map (λ c, if kept_char c then c else "_"%char) name.

(** The strings on which the embedding of [str] is exact: those of ASCII
    characters. *)
Fixpoint is_ascii (s : string) : bool :=
  match s with
  | EmptyString => true
  | String c s' => (nat_of_ascii c <? 128)%nat && is_ascii s'
  end.

Fixpoint string_forall (p : ascii → bool) (s : string) : bool :=
  match s with
  | EmptyString => true
  | String c s' => p c && string_forall p s'
  end.

(** [validate_image_format] and [get_file_size], on the modelled files. *)
Definition validate_image_format `{!MLBackend} (path : string) (w : world)
    : bool :=
  match fs w !! path with
  | Some content => image_verify content
  | None => false
  end.

Definition get_file_size (path : string) (w : world) : option Z :=
  (λ content : bytes, Z.of_nat (length content)) <$> fs w !! path.

(** ** What an upload stores and answers *)

(** The row of a successful upload, and the answer made from a row. *)
Definition stored_row (env : environment) (file : UploadFile)
    (unique_filename path text : string) (blob : bytes) (t : list ImageRecord)
    : ImageRecord :=
  {| id := next_id t;
     filename := unique_filename;
     caption := text;
     embedding := blob;
     upload_time := utcnow env;
     file_path := path;
     file_size := Z.of_nat (length (up_content file));
     content_type := default EmptyString (up_content_type file) |}.

Definition upload_response (row : ImageRecord) : UploadResponse :=
  {| u_id := id row;
     u_filename := filename row;
     u_caption := caption row;
     u_upload_time := upload_time row;
     u_file_size := file_size row;
     message := "Image uploaded and processed successfully" |}.

(** [file] under another name. *)
Definition with_filename (file : UploadFile) (name : string) : UploadFile :=
  {| up_filename := Some name;
     up_content_type := up_content_type file;
     up_content := up_content file |}.

(** ** [routers/auth.py] *)

(** A row of the [users] table ([models/database.py]). *)
Record User := {
  user_id : Z;
  username : string;
  hashed_password : string;
  created_at : string;
  is_active : Z;
}.

(** [services/auth_service.py] is not among the sources: what
    [routers/auth.py] imports from it is taken as given. *)
Class AuthService := {
  verify_password : string → string → outcome bool;
  get_password_hash : string → outcome string;
  create_access_token : string → Z → outcome string;
  validate_password : string → bool;
  ACCESS_TOKEN_EXPIRE_MINUTES : Z;
}.

(** The [users] table and the log. *)
Record auth_world := {
  users_table : list User;
  auth_log : list log_record;
}.

Definition AuthM (T : Type) : Type := auth_world → outcome T * auth_world.

#[global] Instance AuthM_ret : MRet AuthM := λ T a w, (Return a, w).
#[global] Instance AuthM_bind : MBind AuthM := λ T U f m w,
  match m w with
  | (Return a, w') => f a w'
  | (Raise e, w') => (Raise e, w')
  end.

Definition a_raise {T} (e : exn) : AuthM T := λ w, (Raise e, w).
Definition a_lift {T} (o : outcome T) : AuthM T := λ w, (o, w).
Definition a_gets {T} (f : auth_world → T) : AuthM T := λ w, (Return (f w), w).

Definition a_try_except {T} (m : AuthM T) (h : exn → AuthM T) : AuthM T := λ w,
  match m w with
  | (Return a, w') => (Return a, w')
  | (Raise e, w') => h e w'
  end.

Definition a_logger (r : log_record) : AuthM unit := λ w,
  (Return tt, {| users_table := users_table w; auth_log := auth_log w ++ [r] |}).

Definition a_db_call (env : environment) (op : db_op) : AuthM unit :=
  match db_fault env op with
  | Some e => a_raise (lib_exn e)
  | None => mret tt
  end.

(** [db.query(User).filter(User.username == name).first()]; [username] is
    declared [unique=True]. *)
Definition find_user (name : string) (t : list User) : option User :=
  List.find (λ u, String.eqb (username u) name) t.

Definition db_query_user (env : environment) (name : string)
    : AuthM (option User) :=
  a_db_call env DbQueryAll;; a_gets (λ w, find_user name (users_table w)).

Definition next_user_id (t : list User) : Z :=
  1 + foldr Z.max 0 (user_id <$> t).

(** The INSERT of [User(username=.., hashed_password=..)]: the primary
    key, [created_at] and [is_active = 1] are the defaults of the table. *)
Definition insert_user (env : environment) (name hash : string) : AuthM User :=
  λ w,
    if existsb (λ u, String.eqb (username u) name) (users_table w)
    then (Raise (PyError "IntegrityError"
                   "UNIQUE constraint failed: users.username"), w)
    else
      let row :=
        {| user_id := next_user_id (users_table w);
           username := name;
           hashed_password := hash;
           created_at := utcnow env;
           is_active := 1 |} in
      (Return row,
       {| users_table := users_table w ++ [row]; auth_log := auth_log w |}).

Record UserCreate := {
  uc_username : string;
  uc_password : string;
}.

(** *** Text

    A [str] of Python is a sequence of code points, and [len] and
    [str.isalnum] are about code points.  A [string] here holds the UTF-8
    encoding of the [str], in which a code point below 128 is one byte and
    any other is a lead byte followed by one to three continuation bytes
    of six bits each.  [code_points] reads the code points back. *)
Definition is_continuation (n : N) : bool := ((128 <=? n) && (n <? 192))%N.

(** The bits of the code point that the first byte of its encoding holds. *)
Definition lead_bits (n : N) : N :=
  (if n <? 128 then n
   else if n <? 224 then n - 192
   else if n <? 240 then n - 224
   else n - 240)%N.

(** [cp] is what was read so far of the code point that is being read. *)
Fixpoint code_points_from (cp : N) (s : string) : list N :=
  match s with
  | EmptyString => [cp]
  | String c s' =>
      let n := N_of_ascii c in
      if is_continuation n
      then code_points_from (64 * cp + (n - 128))%N s'
      else cp :: code_points_from (lead_bits n) s'
  end.

Definition code_points (s : string) : list N :=
  match s with
  | EmptyString => []
  | String c s' => code_points_from (lead_bits (N_of_ascii c)) s'
  end.

(** [len(v)] of a [str]. *)
Definition len (v : string) : nat := length (code_points v).

(** What the Unicode character database of the interpreter says of a code
    point from 128 on: whether it is alphanumeric, that is a letter, a
    decimal, a digit or numeric. *)
Class UnicodeData := {
  unicode_isalnum : N → bool;
}.

(** [c.isalnum()] of one character: below 128 these are the digits and the
    letters of both cases. *)
Definition is_alnum_char `{!UnicodeData} (c : N) : bool :=
  (if c <? 128
   then ((48 <=? c) && (c <=? 57)) || ((65 <=? c) && (c <=? 90))
        || ((97 <=? c) && (c <=? 122))
   else unicode_isalnum c)%N.

(** [v.isalnum()]: there is a character and every character is
    alphanumeric. *)
Definition isalnum `{!UnicodeData} (v : string) : bool :=
  match code_points v with
  | [] => false
  | cs => forallb is_alnum_char cs
  end.

(** The validators of [UserCreate]. *)
Definition username_must_be_valid `{!UnicodeData} (v : string) : bool :=
  (3 <=? len v)%nat && isalnum v.

Section auth.
Context `{!AuthService} `{!UnicodeData}.

Definition password_must_be_valid (v : string) : bool := validate_password v.

(** The body of [register]; the answer is the [user_id] of the message. *)
Definition register (env : environment) (user : UserCreate) : AuthM Z :=
  a_try_except
    (db_user ← db_query_user env (uc_username user);
     match db_user with
     | Some _ => a_raise (HTTPException 400 "Username already registered")
     | None =>
         hashed ← a_lift (get_password_hash (uc_password user));
         a_db_call env DbAdd;;
         a_db_call env DbCommit;;
         row ← insert_user env (uc_username user) hashed;
         a_db_call env DbRefresh;;
         a_logger (LogInfo ("New user registered: " +:+ uc_username user));;
         mret (user_id row)
     end)
    (λ e,
       match e with
       | HTTPException _ _ => a_raise e
       | PyError _ _ =>
           a_logger (LogError ("Error registering user: " +:+ str_exn e));;
           a_raise (HTTPException 500 "Error creating user")
       end).

(** [POST /auth/register]: a body that breaks a validator is answered with
    status 422 and the handler is not called. *)
Definition register_endpoint (env : environment) (user : UserCreate) : AuthM Z :=
  if username_must_be_valid (uc_username user)
     && password_must_be_valid (uc_password user)
  then register env user
  else a_raise (HTTPException 422 "Unprocessable Entity").

(** The body of [login]; the answer is the [access_token]. *)
Definition login (env : environment) (name password : string) : AuthM string :=
  a_try_except
    (user ← db_query_user env name;
     match user with
     | None => a_raise (HTTPException 401 "Incorrect username or password")
     | Some user =>
         verified ← a_lift (verify_password password (hashed_password user));
         if negb verified
         then a_raise (HTTPException 401 "Incorrect username or password")
         else if is_active user =? 0
         then a_raise (HTTPException 401 "User account is disabled")
         else
           access_token ←
             a_lift (create_access_token (username user)
                       ACCESS_TOKEN_EXPIRE_MINUTES);
           a_logger (LogInfo ("User logged in: " +:+ username user));;
           mret access_token
     end)
    (λ e,
       match e with
       | HTTPException _ _ => a_raise e
       | PyError _ _ =>
           a_logger (LogError ("Error during login: " +:+ str_exn e));;
           a_raise (HTTPException 500 "Error during login")
       end).

End auth.

(** ** An executable auth service and ordering

    As for [Toy]: stand-ins to run the handlers on concrete requests. *)

Module ToyAuth.

(** The hash of a password is the password behind a fixed prefix. *)
Definition hash (password : string) : outcome string :=
  Return ("hashed:" +:+ password).

Definition verify (password hashed : string) : outcome bool :=
  Return (String.eqb hashed ("hashed:" +:+ password)).

Definition token (name : string) (minutes : Z) : outcome string :=
  Return ("token-of-" +:+ name +:+ "-for-" +:+ pretty minutes).

#[export] Instance service : AuthService :=
  {| verify_password := verify;
     get_password_hash := hash;
     create_access_token := token;
     validate_password := λ v, (6 <=? String.length v)%nat;
     ACCESS_TOKEN_EXPIRE_MINUTES := 30 |}.

(** The alphanumeric characters of the Latin-1 Supplement, as the Unicode
    character database has them; the stand-in knows no other block. *)
#[export] Instance unicode : UnicodeData :=
  {| unicode_isalnum := λ c,
       ((c =? 170) || ((178 <=? c) && (c <=? 179)) || (c =? 181)
        || ((185 <=? c) && (c <=? 186)) || ((188 <=? c) && (c <=? 190))
        || ((192 <=? c) && (c <=? 255) && negb (c =? 215)
            && negb (c =? 247)))%N |}.

Definition alice : User :=
  {| user_id := 1;
     username := "alice";
     hashed_password := "hashed:wonderland";
     created_at := "2024-05-01T12:00:00";
     is_active := 1 |}.

Definition carol : User :=
  {| user_id := 2;
     username := "carol";
     hashed_password := "hashed:looking-glass";
     created_at := "2024-05-01T12:00:00";
     is_active := 0 |}.

Definition users (t : list User) : auth_world :=
  {| users_table := t; auth_log := [] |}.

Definition bob : UserCreate :=
  {| uc_username := "bob42"; uc_password := "builder" |}.

Definition jose : UserCreate :=
  {| uc_username := "José"; uc_password := "carpintero" |}.

End ToyAuth.

Module ToyStore.

(** The upload of a red square into a table of one row. *)
Definition uploaded : outcome UploadResponse * world :=
  @upload_image Toy.backend default_settings Toy.env (Toy.jpeg Byte.x01)
    "alice" (Toy.world_of [Toy.red]).

Definition upload_answer (o : outcome UploadResponse) : UploadResponse :=
  match o with
  | Return resp => resp
  | Raise _ =>
      {| u_id := 0; u_filename := EmptyString; u_caption := EmptyString;
         u_upload_time := EmptyString; u_file_size := 0;
         message := EmptyString |}
  end.

(** Rows are inserted in the order of their [upload_time]: the newest
    first is the table reversed. *)
Definition newest_first (t : list ImageRecord) : list ImageRecord :=
  reverse t.

(** An upload as [tests/test_images.py] makes it: a text file. *)
Definition text_file : UploadFile :=
  {| up_filename := Some "test.txt";
     up_content_type := Some "text/plain";
     up_content := [Byte.x54; Byte.x68; Byte.x69; Byte.x73] |}.

Definition nameless : UploadFile :=
  {| up_filename := None;
     up_content_type := Some "image/png";
     up_content := [Byte.xff; Byte.xd8; Byte.x01] |}.

End ToyStore.

(** * Properties *)

Arguments load_embeddings : simpl never.
Arguments calculate_similarity : simpl never.
Arguments filter_and_sort : simpl never.
Arguments slice_to : simpl never.
Arguments rank : simpl never.
Arguments pretty : simpl never.

(** ** The state monad *)

Ltac run_M :=
  repeat (unfold mbind, mret, M_bind, M_ret, outcome_bind, outcome_ret,
            try_except, raise, lift, logger, db_call; simpl).

Section search_runs.
Context `{!MLBackend}.

Lemma get_ml_service_run env w :
  (get_ml_service env w).1 = models_ready env (ml_service_loaded w) ∧
  images_table (get_ml_service env w).2 = images_table w ∧
  fs (get_ml_service env w).2 = fs w ∧
  ml_service_loaded (get_ml_service env w).2
    = ml_service_loaded w || bool_decide (ml_init_fault env = None).
Proof.
  unfold get_ml_service, models_ready, MLService_init.
  destruct (ml_service_loaded w) eqn:Hl; simpl; [by rewrite Hl|].
  run_M. destruct (ml_init_fault env); run_M; by rewrite ?Hl.
Qed.

Lemma generate_embedding_run text w :
  (generate_embedding text w).1 = embedding_of text ∧
  images_table (generate_embedding text w).2 = images_table w ∧
  fs (generate_embedding text w).2 = fs w ∧
  ml_service_loaded (generate_embedding text w).2 = ml_service_loaded w.
Proof.
  unfold generate_embedding, embedding_of. run_M.
  destruct (embedding_model_encode text); by run_M.
Qed.

(** A run of [search_images] answers [search_result] and leaves the files
    and the table as they were. *)
Lemma search_images_run env q limit threshold user w :
  (search_images env q limit threshold user w).1
    = search_result env q limit threshold (ml_service_loaded w) (images_table w) ∧
  images_table (search_images env q limit threshold user w).2 = images_table w ∧
  fs (search_images env q limit threshold user w).2 = fs w ∧
  ml_service_loaded (search_images env q limit threshold user w).2
    = ml_service_loaded w || bool_decide (ml_init_fault env = None).
Proof.
  unfold search_images, search_result, get_ml_service, MLService_init,
    generate_embedding, db_query_all, read_images_table, models_ready,
    embedding_of, db_ready, search_error, search_response, rank,
    mark_ml_service_loaded.
  run_M.
  destruct (ml_service_loaded w) eqn:Hl; run_M;
  [|destruct (ml_init_fault env) eqn:Hf; run_M];
  (destruct (embedding_model_encode q) eqn:He; run_M;
   [destruct (db_fault env DbQueryAll) eqn:Hd; run_M;
    [|destruct (images_table w) as [|i t] eqn:Ht; run_M;
      [|destruct (load_embeddings (i :: t)) eqn:Hld; run_M]]|]).
  all: try match goal with
    | |- context [calculate_similarity ?a ?b] =>
        destruct (calculate_similarity a b) eqn:Hc; run_M
    end.
  all: rewrite ?Hl, ?Ht; repeat split; try done; by case_bool_decide.
Qed.
(** Every call of [generate_embedding] leaves a record in the log. *)
Lemma generate_embedding_logs text w :
  (length (log w) < length (log (generate_embedding text w).2))%nat.
Proof.
  unfold generate_embedding. run_M.
  destruct (embedding_model_encode text); run_M;
    rewrite ?length_app; simpl; lia.
Qed.

End search_runs.

(** ** The Similarity Ranker *)

Section ranker_facts.
Context {A : Type}.
Implicit Types (x y : A * Q) (l : list (A * Q)) (s t : Q).

Lemma insert_desc_perm x l : insert_desc x l ≡ₚ x :: l.
Proof.
  induction l as [|y l IH]; simpl; [done|].
  destruct (Qle_bool (score y) (score x)); [done|].
  rewrite IH. apply Permutation_swap.
Qed.

Lemma sort_desc_perm l : sort_desc l ≡ₚ l.
Proof.
  induction l as [|x l IH]; simpl; [done|].
  by rewrite insert_desc_perm, IH.
Qed.

Lemma sort_desc_length l : length (sort_desc l) = length l.
Proof. by rewrite sort_desc_perm. Qed.

Lemma Qle_bool_false a b : Qle_bool a b = false → (b < a)%Q.
Proof.
  intros Hf. apply Qnot_le_lt. intros Hle.
  apply Qle_bool_iff in Hle. congruence.
Qed.

Lemma insert_desc_descending x l : descending l → descending (insert_desc x l).
Proof.
  unfold descending. induction 1 as [|y l Hl IH Hy]; simpl.
  - repeat constructor.
  - destruct (Qle_bool (score y) (score x)) eqn:Hc.
    + apply Qle_bool_iff in Hc.
      constructor; [by constructor|].
      constructor; [done|].
      eapply Forall_impl; [exact Hy|]. simpl. intros z Hz. lra.
    + apply Qle_bool_false in Hc.
      constructor; [done|].
      rewrite insert_desc_perm. constructor; [lra|done].
Qed.

Lemma sort_desc_descending l : descending (sort_desc l).
Proof.
  induction l as [|x l IH]; simpl; [constructor|].
  by apply insert_desc_descending.
Qed.

(** Insertion keeps the order in which equal scores were met. *)
Lemma insert_desc_with_score s x l :
  with_score s (insert_desc x l) = with_score s (x :: l).
Proof.
  induction l as [|y l IH]; [done|].
  simpl. destruct (Qle_bool (score y) (score x)) eqn:Hc; [done|].
  apply Qle_bool_false in Hc.
  unfold with_score in *. simpl in *. rewrite IH.
  destruct (Qeq_bool (score y) s) eqn:Hy, (Qeq_bool (score x) s) eqn:Hx;
    try done.
  apply Qeq_bool_iff in Hy, Hx. lra.
Qed.

Lemma sort_desc_with_score s l : with_score s (sort_desc l) = with_score s l.
Proof.
  induction l as [|x l IH]; [done|].
  simpl. rewrite insert_desc_with_score.
  unfold with_score in *. simpl. by rewrite IH.
Qed.

Lemma with_score_filter s t l :
  with_score s (List.filter (passes t) l) `prefix_of` with_score s l.
Proof.
  unfold with_score.
  destruct (Qle_bool t s) eqn:Hts.
  - apply Qle_bool_iff in Hts.
    assert (List.filter (λ c, Qeq_bool (score c) s) (List.filter (passes t) l)
            = List.filter (λ c, Qeq_bool (score c) s) l) as ->; [|done].
    induction l as [|y l IH]; [done|]. simpl.
    unfold passes at 1. destruct (Qle_bool t (score y)) eqn:Hp; simpl.
    + by rewrite IH.
    + rewrite IH. destruct (Qeq_bool (score y) s) eqn:Hy; [|done].
      apply Qeq_bool_iff in Hy. apply Qle_bool_false in Hp. lra.
  - apply Qle_bool_false in Hts.
    assert (List.filter (λ c, Qeq_bool (score c) s) (List.filter (passes t) l)
            = []) as ->; [|apply prefix_nil].
    induction l as [|y l IH]; [done|]. simpl.
    unfold passes at 1. destruct (Qle_bool t (score y)) eqn:Hp; simpl; [|done].
    rewrite IH. destruct (Qeq_bool (score y) s) eqn:Hy; [|done].
    apply Qeq_bool_iff in Hy. apply Qle_bool_iff in Hp. lra.
Qed.

Lemma slice_to_take limit l : ∃ k, slice_to limit l = take k l.
Proof. unfold slice_to. destruct (limit <? 0); eauto. Qed.

Lemma with_score_take s k l : with_score s (take k l) `prefix_of` with_score s l.
Proof.
  unfold with_score. rewrite <- (take_drop k l) at 2.
  rewrite List.filter_app. by apply prefix_app_r.
Qed.

Lemma descending_take k l : descending l → descending (take k l).
Proof.
  unfold descending. rewrite <- (take_drop k l) at 1.
  apply StronglySorted_app_1_l.
Qed.

Lemma rank_descending t limit (images : list A) sims :
  descending (rank t limit images sims).
Proof.
  unfold rank. destruct (slice_to_take limit (filter_and_sort t images sims)) as [k ->].
  apply descending_take, sort_desc_descending.
Qed.

Lemma rank_with_score s t limit (images : list A) sims :
  with_score s (rank t limit images sims)
    `prefix_of` with_score s (zip images sims).
Proof.
  unfold rank. destruct (slice_to_take limit (filter_and_sort t images sims)) as [k ->].
  etrans; [apply with_score_take|].
  unfold filter_and_sort. rewrite sort_desc_with_score. apply with_score_filter.
Qed.


(** A descending arrangement that keeps equal scores in their order is
    unique: the result of the sort is determined by its input. *)
Lemma descending_stable_unique l1 l2 :
  l1 ≡ₚ l2 → descending l1 → descending l2 →
  (∀ s, with_score s l1 = with_score s l2) → l1 = l2.
Proof.
  revert l2. induction l1 as [|x l1 IH]; intros l2 Hp H1 H2 Hs.
  { by apply Permutation_nil_l in Hp. }
  destruct l2 as [|y l2]; [by apply Permutation_nil_r in Hp|].
  apply StronglySorted_cons in H1 as [Hx H1], H2 as [Hy H2].
  assert (score x == score y)%Q as Hxy.
  { apply Qle_antisym.
    - assert (x ∈ y :: l2) as Hin by (rewrite <- Hp; left).
      apply elem_of_cons in Hin as [->|Hin]; [lra|].
      by eapply Forall_forall in Hy.
    - assert (y ∈ x :: l1) as Hin by (rewrite Hp; left).
      apply elem_of_cons in Hin as [->|Hin]; [lra|].
      by eapply Forall_forall in Hx. }
  assert (x = y) as <-.
  { specialize (Hs (score x)). unfold with_score in Hs. simpl in Hs.
    rewrite (proj2 (Qeq_bool_iff (score x) (score x))) in Hs by reflexivity.
    rewrite (proj2 (Qeq_bool_iff (score y) (score x))) in Hs by (by symmetry).
    by injection Hs. }
  f_equal. apply IH; [by eapply Permutation_cons_inv|done|done|].
  intros s. specialize (Hs s). unfold with_score in *. simpl in Hs.
  destruct (Qeq_bool (score x) s); [by injection Hs|done].
Qed.

Lemma sort_desc_unique l l' :
  l' ≡ₚ l → descending l' → (∀ s, with_score s l' = with_score s l) →
  l' = sort_desc l.
Proof.
  intros Hp Hd Hs. apply descending_stable_unique; [|done| |].
  - by rewrite sort_desc_perm.
  - apply sort_desc_descending.
  - intros s. by rewrite sort_desc_with_score.
Qed.

Lemma slice_to_length limit l :
  0 ≤ limit → Z.of_nat (length (slice_to limit l)) ≤ limit.
Proof.
  intros Hl. unfold slice_to.
  destruct (limit <? 0) eqn:Hn; [lia|]. rewrite length_take. lia.
Qed.

Lemma slice_to_nonneg limit l :
  0 ≤ limit → slice_to limit l = take (Z.to_nat limit) l.
Proof. intros Hl. unfold slice_to. destruct (limit <? 0) eqn:Hn; [lia|done]. Qed.

Lemma slice_to_length_mono limit l1 l2 :
  (length l1 ≤ length l2)%nat →
  (length (slice_to limit l1) ≤ length (slice_to limit l2))%nat.
Proof.
  intros Hl. unfold slice_to.
  destruct (limit <? 0); rewrite !length_take; lia.
Qed.

Lemma filter_passes_length t1 t2 l :
  (t1 <= t2)%Q →
  (length (List.filter (passes t2) l) ≤ length (List.filter (passes t1) l))%nat.
Proof.
  intros Ht. induction l as [|x l IH]; [done|]. simpl.
  destruct (passes t2 x) eqn:H2, (passes t1 x) eqn:H1; simpl; try lia.
  unfold passes in H1, H2.
  apply Qle_bool_iff in H2. apply Qle_bool_false in H1. lra.
Qed.

Lemma rank_length_mono t1 t2 limit (images : list A) sims :
  (t1 <= t2)%Q →
  (length (rank t2 limit images sims) ≤ length (rank t1 limit images sims))%nat.
Proof.
  intros Ht. unfold rank, filter_and_sort.
  apply slice_to_length_mono. rewrite !sort_desc_length.
  by apply filter_passes_length.
Qed.

(** The ranked list is the head of a descending arrangement of all the
    candidates that pass the threshold. *)
Lemma rank_top t limit (images : list A) sims :
  0 ≤ limit →
  ∃ rest,
    let kept := rank t limit images sims in
    kept ++ rest ≡ₚ List.filter (passes t) (zip images sims) ∧
    descending (kept ++ rest) ∧
    kept = take (Z.to_nat limit) (kept ++ rest).
Proof.
  intros Hl. unfold rank. rewrite slice_to_nonneg by done.
  set (sorted := filter_and_sort t images sims).
  exists (drop (Z.to_nat limit) sorted). simpl.
  rewrite take_drop. split_and!; [|apply sort_desc_descending|done].
  apply sort_desc_perm.
Qed.

End ranker_facts.

(** ** Loops over the stored rows *)

Section loops.
Context {A B : Type} (f : A → outcome B).

Lemma mapM_outcome_cons x l :
  mapM f (x :: l)
  = match f x with
    | Return y =>
        match mapM f l with
        | Return k => Return (y :: k)
        | Raise e => Raise e
        end
    | Raise e => Raise e
    end.
Proof. done. Qed.

Lemma mapM_outcome_length l l' :
  mapM f l = Return l' → length l' = length l.
Proof.
  revert l'. induction l as [|x l IH]; intros l'; simpl.
  - by intros [= <-].
  - unfold mbind, outcome_bind. destruct (f x); [|done].
    destruct (mapM f l) eqn:Hm; [|done].
    intros [= <-]. simpl. f_equal. by apply IH.
Qed.

(** The first element on which [f] raises ends the loop. *)
Lemma mapM_outcome_Raise l1 x l2 e :
  Forall (λ y, is_Return (f y) = true) l1 → f x = Raise e →
  mapM f (l1 ++ x :: l2) = Raise e.
Proof.
  intros Hl Hx. induction Hl as [|y l1 Hy _ IH]; simpl.
  - unfold mbind, outcome_bind. by rewrite Hx.
  - unfold mbind, outcome_bind in *. destruct (f y); [|done]. by rewrite IH.
Qed.

Lemma mapM_outcome_Raise_inv l e :
  mapM f l = Raise e →
  ∃ l1 x l2, l = l1 ++ x :: l2 ∧
    Forall (λ y, is_Return (f y) = true) l1 ∧ f x = Raise e.
Proof.
  induction l as [|x l IH]; simpl; [done|].
  unfold mbind, outcome_bind. destruct (f x) eqn:Hx.
  - destruct (mapM f l) eqn:Hm; [done|]. intros [= ->].
    destruct IH as (l1 & y & l2 & -> & Hl & Hy); [done|].
    exists (x :: l1), y, l2. split_and!; [done| |done].
    constructor; [by rewrite Hx|done].
  - intros [= ->]. by exists [], x, l.
Qed.

Lemma mapM_outcome_elem_Raise l x e :
  x ∈ l → f x = Raise e → ∃ e', mapM f l = Raise e'.
Proof.
  intros Hin Hx. induction l as [|y l IH]; [by apply elem_of_nil in Hin|].
  rewrite mapM_outcome_cons. destruct (f y) eqn:Hy; [|eauto].
  apply elem_of_cons in Hin as [->|Hin]; [congruence|].
  destruct (IH Hin) as [e' ->]. eauto.
Qed.

End loops.

Section search_facts.
Context `{!MLBackend}.

Lemma scored_candidates_fst q images cands :
  scored_candidates q images = Return cands → cands.*1 = images.
Proof.
  unfold scored_candidates, mbind, mret, outcome_bind, outcome_ret.
  destruct (embedding_model_encode q) as [qe|]; [|done].
  destruct (load_embeddings images) as [embs|] eqn:Hl; [|done].
  destruct (calculate_similarity qe embs) as [sims|] eqn:Hc; [|done].
  intros [= <-]. apply fst_zip.
  apply mapM_outcome_length in Hl, Hc. lia.
Qed.

(** A search that answers has ranked the scored candidates. *)
Lemma search_result_Return env q limit threshold loaded images resp :
  search_result env q limit threshold loaded images = Return resp →
  ∃ sims,
    scored_candidates q images = Return (zip images sims) ∧
    resp = search_response q (rank threshold limit images sims).
Proof.
  unfold search_result, scored_candidates, search_error, embedding_of,
    mbind, mret, outcome_bind, outcome_ret.
  destruct (models_ready env loaded); [|done].
  destruct (embedding_model_encode q) as [qe|]; [|done].
  destruct (db_ready env DbQueryAll); [|done].
  destruct images as [|i t].
  - intros [= <-]. exists []. split; [done|].
    unfold search_response, rank, slice_to, filter_and_sort. simpl.
    by rewrite !take_nil, Tauto.if_same.
  - destruct (load_embeddings (i :: t)) as [embs|]; [|done].
    destruct (calculate_similarity qe embs) as [sims|]; [|done].
    intros [= <-]. by exists sims.
Qed.

Lemma models_ready_again env loaded :
  models_ready env (loaded || bool_decide (ml_init_fault env = None))
    = models_ready env loaded.
Proof.
  unfold models_ready. destruct loaded; simpl; [done|].
  case_bool_decide as Hf; [by rewrite Hf|].
  by destruct (ml_init_fault env).
Qed.

(** A second run of the same search, in the state the first one leaves,
    gives the same answer. *)
Lemma search_images_twice env q limit threshold user w :
  (search_images env q limit threshold user
     (search_images env q limit threshold user w).2).1
  = (search_images env q limit threshold user w).1.
Proof.
  destruct (search_images_run env q limit threshold user w) as (Ho & Ht & _ & Hl).
  destruct (search_images_run env q limit threshold user
              (search_images env q limit threshold user w).2) as (Ho' & _).
  rewrite Ho', Ho, Ht, Hl. unfold search_result.
  by rewrite models_ready_again.
Qed.


Lemma load_embeddings_corrupt images x e :
  x ∈ images → deserialize_embedding (embedding x) = Raise e →
  ∃ e', load_embeddings images = Raise e'.
Proof.
  intros Hin Hx. unfold load_embeddings.
  by eapply (mapM_outcome_elem_Raise
               (λ image, deserialize_embedding (embedding image))).
Qed.

(** When a search fails, the handler has logged the error it reports and
    answers with status 500. *)
Lemma search_images_error env q limit threshold user w e :
  (search_images env q limit threshold user w).1 = Raise e →
  ∃ detail,
    e = HTTPException 500 detail ∧
    last (log (search_images env q limit threshold user w).2)
      = Some (LogError detail).
Proof.
  unfold search_images, get_ml_service, MLService_init,
    generate_embedding, db_query_all, read_images_table,
    mark_ml_service_loaded.
  run_M.
  destruct (ml_service_loaded w) eqn:Hl; run_M;
  [|destruct (ml_init_fault env) eqn:Hf; run_M];
  (destruct (embedding_model_encode q) eqn:He; run_M;
   [destruct (db_fault env DbQueryAll) eqn:Hd; run_M;
    [|destruct (images_table w) as [|i t] eqn:Ht; run_M;
      [|destruct (load_embeddings (i :: t)) eqn:Hld; run_M]]|]).
  all: try match goal with
    | |- context [calculate_similarity ?a ?b] =>
        destruct (calculate_similarity a b) eqn:Hc; run_M
    end.
  all: intros [= <-] || done.
  all: eexists; split; [done|]; by rewrite last_snoc.
Qed.

(** The log only grows during a search, and the first thing the handler
    does is to add a record to it. *)
Lemma search_images_logs env q limit threshold user w :
  (length (log w) < length (log (search_images env q limit threshold user w).2))%nat.
Proof.
  unfold search_images, get_ml_service, MLService_init,
    generate_embedding, db_query_all, read_images_table,
    mark_ml_service_loaded.
  run_M.
  destruct (ml_service_loaded w) eqn:Hl; run_M;
  [|destruct (ml_init_fault env) eqn:Hf; run_M];
  (destruct (embedding_model_encode q) eqn:He; run_M;
   [destruct (db_fault env DbQueryAll) eqn:Hd; run_M;
    [|destruct (images_table w) as [|i t] eqn:Ht; run_M;
      [|destruct (load_embeddings (i :: t)) eqn:Hld; run_M]]|]).
  all: try match goal with
    | |- context [calculate_similarity ?a ?b] =>
        destruct (calculate_similarity a b) eqn:Hc; run_M
    end.
  all: rewrite ?length_app; simpl; lia.
Qed.

End search_facts.

(** ** Rounding *)

Lemma round_half_even_mono x y :
  (x <= y)%Q → round_half_even x ≤ round_half_even y.
Proof.
  intros Hxy. unfold round_half_even.
  pose proof (Qfloor_resp_le _ _ Hxy) as Hnm.
  pose proof (Qfloor_le x) as Hx1. pose proof (Qlt_floor x) as Hx2.
  pose proof (Qfloor_le y) as Hy1. pose proof (Qlt_floor y) as Hy2.
  set (n := Qfloor x) in *. set (m := Qfloor y) in *.
  rewrite inject_Z_plus in Hx2, Hy2.
  destruct (Z.eq_dec n m) as [<-|Hne].
  - destruct (Qcompare_spec (x - inject_Z n) (1 # 2)) as [Hx|Hx|Hx],
      (Qcompare_spec (y - inject_Z n) (1 # 2)) as [Hy|Hy|Hy];
      try destruct (Z.even n); try lia; lra.
  - destruct ((x - inject_Z n ?= 1 # 2)%Q), ((y - inject_Z m ?= 1 # 2)%Q);
      try destruct (Z.even n); try destruct (Z.even m); lia.
Qed.

Lemma round4_mono x y : (x <= y)%Q → (round4 x <= round4 y)%Q.
Proof.
  intros Hxy. unfold round4, Qle. simpl.
  apply Z.mul_le_mono_nonneg_r; [lia|].
  apply round_half_even_mono. lra.
Qed.

Lemma results_descending (ranked : list (ImageRecord * Q)) :
  descending ranked →
  StronglySorted (λ a b, (reported_score b <= reported_score a)%Q)
    (image_response <$> ranked).
Proof.
  unfold descending. induction 1 as [|c l Hl IH Hc]; simpl; constructor.
  - done.
  - apply Forall_fmap. eapply Forall_impl; [exact Hc|].
    intros d Hd. unfold reported_score. simpl. by apply round4_mono.
Qed.

(** ** The similarity of each candidate *)

Lemma mapM_outcome_Forall2 {A B} (f : A → outcome B) l l' :
  mapM f l = Return l' → Forall2 (λ x y, f x = Return y) l l'.
Proof.
  revert l'. induction l as [|x l IH]; intros l'.
  - intros [= <-]. constructor.
  - rewrite mapM_outcome_cons. destruct (f x) as [y|] eqn:Hx; [|done].
    destruct (mapM f l) as [k|]; [|done]. intros [= <-].
    constructor; [done|]. by apply IH.
Qed.

Section scores.
Context `{!MLBackend}.

(** Each candidate carries the similarity of its own row. *)
Lemma scored_candidates_scores q images cands :
  scored_candidates q images = Return cands →
  Forall (λ c, similarity_of q c.1 = Return c.2) cands.
Proof.
  unfold scored_candidates, similarity_of, mbind, mret, outcome_bind,
    outcome_ret.
  destruct (embedding_model_encode q) as [qe|]; [|done].
  destruct (load_embeddings images) as [embs|] eqn:Hl; [|done].
  destruct (calculate_similarity qe embs) as [sims|] eqn:Hc; [|done].
  intros [= <-].
  apply mapM_outcome_Forall2 in Hl, Hc.
  revert sims Hc. induction Hl as [|image v images embs Hv Hl IH];
    intros sims Hc.
  - apply Forall2_nil_inv_l in Hc as ->. constructor.
  - apply Forall2_cons_inv_l in Hc as (s & sims' & Hs & Hc & ->).
    simpl. constructor; [|by apply IH].
    simpl. by rewrite Hv.
Qed.


End scores.

(** The ranked list is the slice [[:limit]] of the sorted list, and so a
    head of it. *)
Lemma rank_prefix_of_sort {A} t limit (images : list A) sims :
  ∃ rest,
    rank t limit images sims ++ rest = filter_and_sort t images sims ∧
    (0 ≤ limit →
     rank t limit images sims
     = take (Z.to_nat limit) (rank t limit images sims ++ rest)) ∧
    (limit < 0 →
     rank t limit images sims
     = take (length (rank t limit images sims ++ rest) - Z.to_nat (- limit))
         (rank t limit images sims ++ rest)).
Proof.
  unfold rank.
  destruct (slice_to_take limit (filter_and_sort t images sims)) as [k Hk].
  exists (drop k (filter_and_sort t images sims)).
  rewrite Hk, take_drop, <- Hk. unfold slice_to.
  split_and!; [done| |]; intros Hl;
    by destruct (limit <? 0) eqn:Hn; [try lia|try lia].
Qed.

(** ** Retrieval *)

Section retrieval.
Context `{!MLBackend}.

(** C2.  The results of a search are the ranked candidates, each with
    the similarity of its own row.  The ranked list is the head of an
    arrangement of all the candidates that pass the threshold, none lost
    and none added, in which the scores descend and the candidates of one
    score keep the order of the table; for a limit that is not negative it
    is the first [limit] of them, and for a negative limit all but the
    last [- limit].  The rounded scores that the response
    shows descend too, and the same search run again in the state the
    first run leaves returns the same response. *)
Theorem search_orders_by_score_stable env q limit threshold user w resp :
  (search_images env q limit threshold user w).1 = Return resp →
  ∃ sims,
    let cands := zip (images_table w) sims in
    let ranked := rank threshold limit (images_table w) sims in
    scored_candidates q (images_table w) = Return cands ∧
    cands.*1 = images_table w ∧
    Forall (λ c, similarity_of q c.1 = Return c.2) cands ∧
    results resp = image_response <$> ranked ∧
    descending ranked ∧
    StronglySorted (λ a b, (reported_score b <= reported_score a)%Q)
      (results resp) ∧
    (∀ s, with_score s ranked `prefix_of` with_score s cands) ∧
    (∃ rest,
       ranked ++ rest ≡ₚ List.filter (passes threshold) cands ∧
       descending (ranked ++ rest) ∧
       (∀ s, with_score s (ranked ++ rest)
             = with_score s (List.filter (passes threshold) cands)) ∧
       (0 ≤ limit → ranked = take (Z.to_nat limit) (ranked ++ rest)) ∧
       (limit < 0 →
        ranked = take (length (ranked ++ rest) - Z.to_nat (- limit))
                   (ranked ++ rest))) ∧
    (search_images env q limit threshold user
       (search_images env q limit threshold user w).2).1 = Return resp.
Proof.
  intros Hrun. pose proof Hrun as Hagain.
  rewrite <- search_images_twice in Hagain.
  destruct (search_images_run env q limit threshold user w) as (Ho & _).
  rewrite Ho in Hrun.
  apply search_result_Return in Hrun as (sims & Hc & ->).
  exists sims. simpl. split_and!; [done| | |done| | | | |done].
  - by eapply scored_candidates_fst.
  - by eapply scored_candidates_scores.
  - apply rank_descending.
  - apply results_descending, rank_descending.
  - intros s. apply rank_with_score.
  - destruct (rank_prefix_of_sort threshold limit (images_table w) sims)
      as (rest & Hrest & Htake & Hdrop).
    exists rest. rewrite Hrest in *. unfold filter_and_sort in *.
    split_and!;
      [apply sort_desc_perm|apply sort_desc_descending| |exact Htake
      |exact Hdrop].
    intros s. apply sort_desc_with_score.
Qed.

Lemma params_ok_spec r :
  params_ok r = true ↔
  query_ok r = true ∧ 1 ≤ limit_param r ≤ 20 ∧
  (0 <= threshold_param r <= 1)%Q.
Proof.
  unfold params_ok, limit_ok, threshold_ok.
  rewrite !andb_true_iff, !Z.leb_le, !Qle_bool_iff. tauto.
Qed.

(** C3.  A search returns at most [limit] items; they are the first [limit]
    of a descending arrangement of all the stored items that pass the
    threshold, every stored item being a candidate; and [total_results] is
    the number of items returned. *)
Theorem search_limit_after_filter_and_sort env r user w resp :
  (search_endpoint env r user w).1 = Return resp →
  Z.of_nat (length (results resp)) ≤ limit_param r ∧
  total_results resp = Z.of_nat (length (results resp)) ∧
  ∃ cands kept rest,
    scored_candidates (query resp) (images_table w) = Return cands ∧
    cands.*1 = images_table w ∧
    results resp = image_response <$> kept ∧
    kept ++ rest ≡ₚ List.filter (passes (threshold_param r)) cands ∧
    descending (kept ++ rest) ∧
    kept = take (Z.to_nat (limit_param r)) (kept ++ rest).
Proof.
  unfold search_endpoint. destruct (params_ok r) eqn:Hok; [|done].
  apply params_ok_spec in Hok as (_ & Hlim & _).
  set (q := default EmptyString (q_query r)).
  intros Hrun.
  destruct (search_images_run env q (limit_param r) (threshold_param r) user w)
    as (Ho & _).
  rewrite Ho in Hrun.
  apply search_result_Return in Hrun as (sims & Hc & ->). simpl.
  split_and!; [|done|].
  - rewrite length_fmap. apply slice_to_length. lia.
  - destruct (rank_top (threshold_param r) (limit_param r) (images_table w) sims)
      as (rest & Hp & Hd & Hk); [lia|].
    exists (zip (images_table w) sims),
      (rank (threshold_param r) (limit_param r) (images_table w) sims), rest.
    split_and!; [done| |done|done|done|done].
    by eapply scored_candidates_fst.
Qed.

(** C4, as the code has it.  A stored row whose blob does not decode makes
    the whole search fail: the exception reaches the outer handler, which
    logs it and answers with status 500; no item is skipped and the table
    is left as it was. *)
Theorem search_decode_failure_aborts env q limit threshold user w x e :
  x ∈ images_table w →
  deserialize_embedding (embedding x) = Raise e →
  ∃ detail,
    (search_images env q limit threshold user w).1
      = Raise (HTTPException 500 detail) ∧
    last (log (search_images env q limit threshold user w).2)
      = Some (LogError detail) ∧
    images_table (search_images env q limit threshold user w).2
      = images_table w.
Proof.
  intros Hin Hx.
  destruct (load_embeddings_corrupt _ _ _ Hin Hx) as [e' He'].
  destruct (search_images_run env q limit threshold user w) as (Ho & Ht & _).
  assert (∃ e0, (search_images env q limit threshold user w).1 = Raise e0)
    as [e0 He0].
  { rewrite Ho. unfold search_result, search_error, mbind, outcome_bind.
    destruct (models_ready _ _); [|eauto].
    destruct (embedding_of q); [|eauto].
    destruct (db_ready _ _); [|eauto].
    destruct (images_table w); [by apply elem_of_nil in Hin|].
    rewrite He'. eauto. }
  destruct (search_images_error _ _ _ _ _ _ _ He0) as (detail & -> & Hlog).
  eauto.
Qed.

(** C7.  With the same table, query and limit, raising the threshold does
    not turn a failure into an answer or an answer into a failure, and
    never increases the number of results. *)
Theorem search_threshold_monotone env q limit t1 t2 user w :
  (t1 <= t2)%Q →
  let o1 := (search_images env q limit t1 user w).1 in
  let o2 := (search_images env q limit t2 user w).1 in
  is_Return o1 = is_Return o2 ∧ (result_count o2 ≤ result_count o1)%nat.
Proof.
  intros Ht. simpl.
  destruct (search_images_run env q limit t1 user w) as (-> & _).
  destruct (search_images_run env q limit t2 user w) as (-> & _).
  unfold search_result, search_error, mbind, outcome_bind.
  destruct (models_ready _ _); [|by simpl].
  destruct (embedding_of q) as [qe|]; [|by simpl].
  destruct (db_ready _ _); [|by simpl].
  destruct (images_table w) as [|i t]; [by simpl|].
  destruct (load_embeddings (i :: t)) as [embs|]; [|by simpl].
  destruct (calculate_similarity qe embs) as [sims|]; [|by simpl].
  simpl. split; [done|].
  rewrite !length_fmap. by apply rank_length_mono.
Qed.

(** C9.  On an empty table a search returns [total_results = 0] and no
    results: that the table is empty is no error.  The steps that every
    search takes before it looks at the table, the loading of the models,
    the embedding of the query and the reading of the table, are taken to
    succeed. *)
Theorem search_empty_store env q limit threshold user w :
  images_table w = [] →
  models_ready env (ml_service_loaded w) = Return tt →
  is_Return (embedding_model_encode q) = true →
  db_fault env DbQueryAll = None →
  (search_images env q limit threshold user w).1
    = Return {| query := q; total_results := 0; results := [] |}.
Proof.
  intros Ht Hm He Hd.
  destruct (search_images_run env q limit threshold user w) as (-> & _).
  unfold search_result, search_error, embedding_of, db_ready,
    mbind, outcome_bind.
  rewrite Hm, Ht, Hd. by destruct (embedding_model_encode q).
Qed.

(** C10.  [limit] defaults to 3 and [threshold] to 0; a request is handed
    to the handler exactly when the query is not empty, [limit] is between
    1 and 20 and [threshold] between 0 and 1; any other request is answered
    with status 422 in an unchanged state, so without a line in the log,
    whereas the handler and every computation of an embedding write one. *)
Theorem search_parameters_validated env r user w :
  limit_param {| q_query := q_query r; q_limit := None;
                 q_threshold := q_threshold r |} = 3 ∧
  threshold_param {| q_query := q_query r; q_limit := q_limit r;
                     q_threshold := None |} = 0%Q ∧
  (params_ok r = true ↔
     query_ok r = true ∧ 1 ≤ limit_param r ≤ 20 ∧
     (0 <= threshold_param r <= 1)%Q) ∧
  (if params_ok r then
     search_endpoint env r user w
       = search_images env (default EmptyString (q_query r)) (limit_param r)
           (threshold_param r) user w ∧
     (length (log w) < length (log (search_endpoint env r user w).2))%nat
   else
     search_endpoint env r user w
       = (Raise (HTTPException 422 "Unprocessable Entity"), w)) ∧
  (∀ text w0,
     (length (log w0) < length (log (generate_embedding text w0).2))%nat).
Proof.
  split_and!; [done|done|apply params_ok_spec| |apply generate_embedding_logs].
  unfold search_endpoint. destruct (params_ok r); [|done].
  split; [done|]. apply search_images_logs.
Qed.

End retrieval.

(** ** Ingestion *)

Section ingestion.
Context `{!MLBackend}.

Lemma store_and_process_stages env file unique_filename path user w :
  let run := store_and_process env file unique_filename path user w in
  (∀ p, p ≠ path → fs run.2 !! p = fs w !! p) ∧
  match failing_stage env file unique_filename w with
  | None =>
      is_Return run.1 = true ∧
      fs run.2 !! path = Some (up_content file) ∧
      ∃ row, images_table run.2 = images_table w ++ [row]
  | Some Verification =>
      run.1 = Raise (HTTPException 400 "Invalid or corrupted image file") ∧
      fs run.2 !! path = None ∧
      images_table run.2 = images_table w
  | Some ReadBack =>
      (∃ cls msg, run.1 = Raise (PyError cls msg)) ∧
      ∃ row, images_table run.2 = images_table w ++ [row]
  | Some _ =>
      (∃ cls msg, run.1 = Raise (PyError cls msg)) ∧
      images_table run.2 = images_table w
  end.
Proof.
  unfold store_and_process, verify_image, file_write, file_read, os_remove,
    get_ml_service, MLService_init, mark_ml_service_loaded,
    generate_caption, generate_embedding, db_commit, insert_row, file_read,
    failing_stage, models_ready, faulty, filename_taken, lib_exn.
  run_M. rewrite lookup_insert_eq. run_M.
  destruct (image_verify (up_content file)) eqn:Hv; run_M.
  2:{ rewrite lookup_insert_eq. run_M. rewrite lookup_delete_eq.
      split; [|done]. intros p Hp. by rewrite lookup_delete_ne, lookup_insert_ne. }
  destruct (ml_service_loaded w) eqn:Hl; run_M;
  [|destruct (ml_init_fault env) eqn:Hf; run_M].
  all: rewrite ?lookup_insert_eq; run_M.
  all: repeat match goal with
    | |- context [caption_model_generate ?c] =>
        destruct (caption_model_generate c) eqn:?; run_M
    | |- context [embedding_model_encode ?c] =>
        destruct (embedding_model_encode c) eqn:?; run_M
    | |- context [db_fault ?ev ?op] =>
        destruct (db_fault ev op) eqn:?; run_M
    | |- context [existsb ?f ?l] =>
        destruct (existsb f l) eqn:?; run_M
    end.
  all: split; [by intros p Hp; rewrite lookup_insert_ne|].
  all: rewrite ?lookup_insert_eq; eauto 10.
Qed.

Lemma clean_up_run path w :
  (clean_up path w).1 = Return tt ∧
  fs (clean_up path w).2 = delete path (fs w) ∧
  images_table (clean_up path w).2 = images_table w.
Proof.
  unfold clean_up, os_path_exists, os_remove. run_M.
  case_bool_decide as Hp.
  - destruct Hp as [c Hc]. rewrite Hc. by simpl.
  - simpl. split_and!; [done| |done].
    symmetry. apply delete_id.
    destruct (fs w !! path) eqn:Hc; [|done]. by destruct Hp.
Qed.

(** The handler around the stages: what the stored part raises reaches the
    caller as an HTTP error, after the removal of the file unless the
    exception is an [HTTPException]. *)
Lemma upload_image_stored cfg env file user w name :
  validate_image_file cfg file = Return tt →
  Z.of_nat (length (up_content file)) ≤ MAX_FILE_SIZE cfg →
  up_filename file = Some name →
  let '(unique, path) := upload_file_path cfg env name in
  let stored := store_and_process env file unique path user w in
  let run := upload_image cfg env file user w in
  match stored.1 with
  | Return resp => run = (Return resp, stored.2)
  | Raise (HTTPException code detail) =>
      run = (Raise (HTTPException code detail), stored.2)
  | Raise (PyError cls msg) =>
      (∃ detail, run.1 = Raise (HTTPException 500 detail)) ∧
      fs run.2 = delete path (fs stored.2) ∧
      images_table run.2 = images_table stored.2
  end.
Proof.
  intros Hval Hsize Hname. unfold upload_image, upload_file_path.
  run_M. rewrite Hval. run_M.
  rewrite (proj2 (Z.ltb_ge _ _) Hsize), Hname. run_M.
  set (unique := uuid4 env +:+ "." +:+ lower (split_dot_last name)).
  set (path := UPLOAD_DIR cfg +:+ "/" +:+ unique).
  destruct (store_and_process env file unique path user w) as [o w1].
  simpl. destruct o as [resp|[code detail|cls msg]]; run_M; [done|done|].
  destruct (clean_up_run path w1) as (Ho & Hfs & Ht).
  destruct (clean_up path w1) as [o2 w2]. simpl in *. subst o2. run_M.
  eauto.
Qed.

(** What a failing stage leaves, for every stage. *)
Lemma upload_image_failure cfg env file user w name s :
  validate_image_file cfg file = Return tt →
  Z.of_nat (length (up_content file)) ≤ MAX_FILE_SIZE cfg →
  up_filename file = Some name →
  failing_stage env file (upload_file_path cfg env name).1 w = Some s →
  let run := upload_image cfg env file user w in
  let path := (upload_file_path cfg env name).2 in
  (∃ code detail, run.1 = Raise (HTTPException code detail)) ∧
  fs run.2 !! path = None ∧
  (∀ p, p ≠ path → fs run.2 !! p = fs w !! p) ∧
  (s ≠ ReadBack → images_table run.2 = images_table w) ∧
  (s = ReadBack → ∃ row, images_table run.2 = images_table w ++ [row]).
Proof.
  intros Hval Hsize Hname Hstage.
  pose proof (upload_image_stored cfg env file user w name Hval Hsize Hname)
    as Hrun.
  destruct (upload_file_path cfg env name) as [unique path]. simpl in *.
  destruct (store_and_process_stages env file unique path user w)
    as (Hother & Hstored).
  rewrite Hstage in Hstored.
  destruct (store_and_process env file unique path user w) as [o w1].
  simpl in *.
  assert (∀ cls msg,
    o = Raise (PyError cls msg) →
    (∃ code detail,
       (upload_image cfg env file user w).1 = Raise (HTTPException code detail))
    ∧ fs (upload_image cfg env file user w).2 !! path = None
    ∧ (∀ p, p ≠ path → fs (upload_image cfg env file user w).2 !! p = fs w !! p)
    ∧ images_table (upload_image cfg env file user w).2 = images_table w1)
    as Hpy.
  { intros cls msg ->. destruct Hrun as ([detail Ho] & Hfs & Ht).
    rewrite Hfs, Ht. split_and!; [eauto|apply lookup_delete_eq| |done].
    intros p Hp. rewrite lookup_delete_ne by done. by apply Hother. }
  destruct s.
  1:{ destruct Hstored as (-> & Hfs & Ht). rewrite Hrun. simpl.
      split_and!; eauto. done. }
  all: destruct Hstored as ((cls & msg & Ho) & Ht).
  all: destruct (Hpy cls msg Ho) as (Herr & Hfs & Hoth & Htab).
  all: rewrite Htab; split_and!; try done.
  all: by intros _.
Qed.

(** C6, as the code has it.  An upload that passed validation has written
    the file.  If a stage after the write fails, the upload is answered
    with an HTTP error, the file is gone by then and every other file is
    as it was.  When the failing stage is the verification of the image,
    the loading of the models, the captioning, the embedding, [db.add] or
    [db.commit], the table is as it was too. *)
Theorem upload_failure_removes_file cfg env file user w name s :
  validate_image_file cfg file = Return tt →
  Z.of_nat (length (up_content file)) ≤ MAX_FILE_SIZE cfg →
  up_filename file = Some name →
  failing_stage env file (upload_file_path cfg env name).1 w = Some s →
  let run := upload_image cfg env file user w in
  let path := (upload_file_path cfg env name).2 in
  (∃ code detail, run.1 = Raise (HTTPException code detail)) ∧
  fs run.2 !! path = None ∧
  (∀ p, p ≠ path → fs run.2 !! p = fs w !! p) ∧
  (s ≠ ReadBack → images_table run.2 = images_table w).
Proof.
  intros Hval Hsize Hname Hstage.
  destruct (upload_image_failure cfg env file user w name s
              Hval Hsize Hname Hstage) as (Herr & Hfs & Hother & Ht & _).
  done.
Qed.

(** When no stage fails the upload answers, and the file and the row are
    there. *)
Lemma upload_image_succeeds cfg env file user w name :
  validate_image_file cfg file = Return tt →
  Z.of_nat (length (up_content file)) ≤ MAX_FILE_SIZE cfg →
  up_filename file = Some name →
  failing_stage env file (upload_file_path cfg env name).1 w = None →
  let run := upload_image cfg env file user w in
  is_Return run.1 = true ∧
  fs run.2 !! (upload_file_path cfg env name).2 = Some (up_content file) ∧
  ∃ row, images_table run.2 = images_table w ++ [row].
Proof.
  intros Hval Hsize Hname Hstage.
  pose proof (upload_image_stored cfg env file user w name Hval Hsize Hname)
    as Hrun.
  destruct (upload_file_path cfg env name) as [unique path]. simpl in *.
  destruct (store_and_process_stages env file unique path user w)
    as (_ & Hstored).
  rewrite Hstage in Hstored. destruct Hstored as (Ho & Hfs & Ht).
  destruct (store_and_process env file unique path user w) as [o w1].
  simpl in *. destruct o; [|done]. by rewrite Hrun.
Qed.

End ingestion.

(** ** Runs on concrete requests *)

Section runs.
Import Toy.

(** Two rows and a third of the same score as the first: the order of the
    table decides among them. *)
Example search_ties_in_table_order :
  r_id <$> results (answer (search_images env "red rose" 3 0 "alice"
                      (world_of [grass; bird; red2; red])).1)
  = [2; 4; 1].
Proof. vm_compute. reflexivity. Qed.

Lemma search_orders_by_score_stable_witness :
  let w := world_of [red; bird; grass; red2] in
  let resp := answer (search_images env "red rose" 3 0 "alice" w).1 in
  ∃ sims,
    let cands := zip (images_table w) sims in
    let ranked := rank 0 3 (images_table w) sims in
    scored_candidates "red rose" (images_table w) = Return cands ∧
    cands.*1 = images_table w ∧
    Forall (λ c, similarity_of "red rose" c.1 = Return c.2) cands ∧
    results resp = image_response <$> ranked ∧
    descending ranked ∧
    StronglySorted (λ a b, (reported_score b <= reported_score a)%Q)
      (results resp) ∧
    (∀ s, with_score s ranked `prefix_of` with_score s cands) ∧
    (∃ rest,
       ranked ++ rest ≡ₚ List.filter (passes 0) cands ∧
       descending (ranked ++ rest) ∧
       (∀ s, with_score s (ranked ++ rest)
             = with_score s (List.filter (passes 0) cands)) ∧
       (0 ≤ 3 → ranked = take (Z.to_nat 3) (ranked ++ rest)) ∧
       (3 < 0 →
        ranked = take (length (ranked ++ rest) - Z.to_nat (- 3))
                   (ranked ++ rest))) ∧
    (search_images env "red rose" 3 0 "alice"
       (search_images env "red rose" 3 0 "alice" w).2).1 = Return resp.
Proof.
  intros w resp.
  apply (search_orders_by_score_stable env "red rose" 3 0 "alice" w resp).
  vm_compute. reflexivity.
Defined.

Lemma search_limit_after_filter_and_sort_witness :
  let w := world_of [bird; grass; red; red2] in
  let r := request "red rose" (Some 2) (Some (1 # 2)%Q) in
  let resp := answer (search_endpoint env r "alice" w).1 in
  (search_endpoint env r "alice" w).1 = Return resp ∧
  Z.of_nat (length (results resp)) ≤ 2 ∧
  total_results resp = Z.of_nat (length (results resp)).
Proof.
  intros w r resp.
  assert ((search_endpoint env r "alice" w).1 = Return resp) as Hrun
    by (vm_compute; reflexivity).
  split; [exact Hrun|].
  destruct (search_limit_after_filter_and_sort env r "alice" w resp Hrun)
    as (Hlen & Htotal & _).
  split; [exact Hlen|exact Htotal].
Defined.

Lemma search_decode_failure_aborts_witness :
  let w := world_of [red; corrupt; bird] in
  ∃ detail,
    (search_images env "red rose" 3 0 "alice" w).1
      = Raise (HTTPException 500 detail) ∧
    last (log (search_images env "red rose" 3 0 "alice" w).2)
      = Some (LogError detail) ∧
    images_table (search_images env "red rose" 3 0 "alice" w).2
      = images_table w.
Proof.
  intros w.
  apply (search_decode_failure_aborts env "red rose" 3 0 "alice" w corrupt
           (PyError "EOFError" "Ran out of input")).
  - right. left.
  - reflexivity.
Defined.

(** C4, as stated, fails: with one row whose blob is empty between two
    good rows the search answers with status 500 and returns nothing,
    whereas on the two good rows alone it answers. *)
Lemma search_corrupt_item_not_skipped :
  ¬ @skips_corrupt_items Toy.backend env "red rose" 3 0 "alice"
      (world_of [red; corrupt; bird]).
Proof. intros (resp & Hrun & _). vm_compute in Hrun. discriminate Hrun. Qed.

Example search_corrupt_item_status :
  (search_images env "red rose" 3 0 "alice" (world_of [red; corrupt; bird])).1
  = Raise (HTTPException 500 "Error searching images: Ran out of input").
Proof. vm_compute. reflexivity. Qed.


Lemma search_threshold_monotone_witness :
  let w := world_of [red; bird; grass; red2] in
  let o1 := (search_images env "red rose" 3 (1 # 2) "alice" w).1 in
  let o2 := (search_images env "red rose" 3 1 "alice" w).1 in
  is_Return o1 = is_Return o2 ∧ (result_count o2 ≤ result_count o1)%nat.
Proof.
  intros w.
  apply (search_threshold_monotone env "red rose" 3 (1 # 2) 1 "alice" w).
  vm_compute. discriminate.
Defined.

Lemma search_empty_store_witness :
  (search_images env "red rose" 3 0 "alice" (world_of [])).1
  = Return {| query := "red rose"; total_results := 0; results := [] |}.
Proof.
  apply (search_empty_store env "red rose" 3 0 "alice" (world_of []));
    reflexivity.
Defined.

(** When the embedding model raises, a search answers with status 500,
    on an empty table as on any other. *)
Example search_model_failure :
  (@search_images
     (failing_encoder (PyError "RuntimeError" "CUDA out of memory"))
     env "red rose" 3 0%Q "alice" (world_of [])).1
  = Raise (HTTPException 500
      "Error searching images: Error generating embedding: CUDA out of memory").
Proof. vm_compute. reflexivity. Qed.

(** C6, as stated, fails: when the row was committed and the read-back
    [db.refresh] raises, the upload answers with status 500 and the file
    is removed, but the row stays in the table. *)
Lemma upload_read_back_failure_leaves_row :
  ¬ @failed_upload_leaves_nothing Toy.backend default_settings
      (env_db_fails DbRefresh) (jpeg Byte.x01) "alice" "photo.JPG"
      (world_of []).
Proof.
  intros Hclaim.
  destruct (Hclaim (HTTPException 500
                      "Error processing image: database is locked"))
    as [_ Ht]; [vm_compute; reflexivity|].
  vm_compute in Ht. discriminate Ht.
Qed.

(** The row that upload leaves is found by a search, and its download
    answers that the file is not on disk. *)
Example upload_read_back_failure_row_is_found :
  let left := (upload_image default_settings (env_db_fails DbRefresh)
                 (jpeg Byte.x01) "alice" (world_of [])).2 in
  r_id <$> results (answer (search_images env "red rose" 3 0 "alice" left).1)
    = [1] ∧
  (download_image env 1 "alice" left).1
    = Raise (HTTPException 404 "Image file not found on disk").
Proof. vm_compute. done. Qed.

Lemma upload_failure_removes_file_witness :
  let env := env_db_fails DbCommit in
  let run := upload_image default_settings env (jpeg Byte.x01) "alice"
               (world_of [red]) in
  let path := "uploads/0b5c7e52-6f0e-4c58-9d4b-2f1a3c8e7a10.jpg" in
  failing_stage env (jpeg Byte.x01)
    "0b5c7e52-6f0e-4c58-9d4b-2f1a3c8e7a10.jpg" (world_of [red])
    = Some DatabaseStore ∧
  (∃ code detail, run.1 = Raise (HTTPException code detail)) ∧
  fs run.2 !! path = None ∧
  images_table run.2 = [red].
Proof.
  intros env0 run path.
  assert (failing_stage env0 (jpeg Byte.x01)
            "0b5c7e52-6f0e-4c58-9d4b-2f1a3c8e7a10.jpg" (world_of [red])
          = Some DatabaseStore) as Hstage by (vm_compute; reflexivity).
  split; [exact Hstage|].
  destruct (upload_failure_removes_file default_settings env0 (jpeg Byte.x01)
              "alice" (world_of [red]) "photo.JPG" DatabaseStore eq_refl
              ltac:(vm_compute; discriminate) eq_refl Hstage)
    as (Herr & Hfs & _ & Ht).
  split; [exact Herr|]. split; [exact Hfs|].
  apply Ht. discriminate.
Defined.

(** What the caller of that upload receives. *)
Example upload_commit_failure :
  (upload_image default_settings (env_db_fails DbCommit) (jpeg Byte.x01)
     "alice" (world_of [red])).1
  = Raise (HTTPException 500 "Error processing image: database is locked").
Proof. vm_compute. reflexivity. Qed.

(** The upload of a good image leaves the file and the row. *)
Example upload_stores_file_and_row :
  let run := upload_image default_settings env (jpeg Byte.x01) "alice"
               (world_of []) in
  is_Return run.1 = true ∧
  fs run.2 !! "uploads/0b5c7e52-6f0e-4c58-9d4b-2f1a3c8e7a10.jpg"
    = Some [Byte.xff; Byte.xd8; Byte.x01] ∧
  caption <$> images_table run.2 = ["a red square"].
Proof. vm_compute. done. Qed.

(** A file that is not an image is removed and answered with status 400. *)
Example upload_invalid_image :
  let file := {| up_filename := Some "notes.png";
                 up_content_type := Some "image/png";
                 up_content := [Byte.x54; Byte.x68; Byte.x69; Byte.x73] |} in
  let run := upload_image default_settings env file "alice" (world_of []) in
  run.1 = Raise (HTTPException 400 "Invalid or corrupted image file") ∧
  fs run.2 = ∅ ∧ images_table run.2 = [].
Proof. vm_compute. done. Qed.

(** When only the read-back after the commit raises, the file is removed
    and the committed row stays in the table. *)
Example upload_refresh_failure :
  let run := upload_image default_settings (env_db_fails DbRefresh)
               (jpeg Byte.x01) "alice" (world_of []) in
  run.1 = Raise (HTTPException 500
                   "Error processing image: database is locked") ∧
  fs run.2 = ∅ ∧ caption <$> images_table run.2 = ["a red square"].
Proof. vm_compute. done. Qed.

Lemma search_parameters_validated_witness :
  search_endpoint env (request "red rose" (Some 21) None) "alice" (world_of [red])
  = (Raise (HTTPException 422 "Unprocessable Entity"), world_of [red]).
Proof.
  destruct (search_parameters_validated env
              (request "red rose" (Some 21) None) "alice" (world_of [red]))
    as (_ & _ & _ & Hrun & _).
  exact Hrun.
Defined.

End runs.

(** * Further properties

    The other handlers of [routers/images.py], [get_ml_service], the
    helpers and the auth router. *)

(** ** Validation of an upload *)

Lemma validate_image_file_outcome cfg file :
  validate_image_file cfg file = Return tt ∨
  ∃ detail, validate_image_file cfg file = Raise (HTTPException 400 detail).
Proof.
  unfold validate_image_file.
  destruct (String.prefix _ _); simpl; [|eauto].
  destruct (up_filename file) as [[|c name]|]; eauto.
  destruct (string_in _ _); eauto.
Qed.

Lemma string_map_append f s1 s2 :
  string_map f (s1 +:+ s2) = string_map f s1 +:+ string_map f s2.
Proof. induction s1 as [|c s1 IH]; simpl; [done|]. by rewrite IH. Qed.

Lemma last_segment_map f acc s :
  (∀ c, Ascii.eqb (f c) "." = Ascii.eqb c ".") →
  last_segment (string_map f acc) (string_map f s)
  = string_map f (last_segment acc s).
Proof.
  intros Hf. revert acc. induction s as [|c s IH]; intros acc; simpl; [done|].
  rewrite Hf. destruct (Ascii.eqb c ".").
  - apply (IH EmptyString).
  - rewrite <- IH. by rewrite string_map_append.
Qed.

Lemma ascii_lower_dot c : Ascii.eqb (ascii_lower c) "." = Ascii.eqb c ".".
Proof. by destruct c as [[] [] [] [] [] [] [] []]. Qed.

Lemma ascii_upper_dot c : Ascii.eqb (ascii_upper c) "." = Ascii.eqb c ".".
Proof. by destruct c as [[] [] [] [] [] [] [] []]. Qed.

Lemma ascii_lower_lower c : ascii_lower (ascii_lower c) = ascii_lower c.
Proof. by destruct c as [[] [] [] [] [] [] [] []]. Qed.

Lemma ascii_lower_upper c : ascii_lower (ascii_upper c) = ascii_lower c.
Proof. by destruct c as [[] [] [] [] [] [] [] []]. Qed.

Lemma string_map_map f g s :
  string_map f (string_map g s) = string_map (λ c, f (g c)) s.
Proof. induction s as [|c s IH]; simpl; [done|]. by rewrite IH. Qed.

Lemma string_map_ext f g s : (∀ c, f c = g c) → string_map f s = string_map g s.
Proof. intros Hfg. induction s as [|c s IH]; simpl; [done|]. by rewrite Hfg, IH. Qed.

Lemma extension_lower s :
  lower (split_dot_last (lower s)) = lower (split_dot_last s).
Proof.
  unfold split_dot_last, lower.
  pose proof (last_segment_map ascii_lower EmptyString s ascii_lower_dot) as Hs.
  simpl in Hs. rewrite Hs.
  rewrite string_map_map. apply string_map_ext, ascii_lower_lower.
Qed.

Lemma extension_upper s :
  lower (split_dot_last (upper s)) = lower (split_dot_last s).
Proof.
  unfold split_dot_last, lower, upper.
  pose proof (last_segment_map ascii_upper EmptyString s ascii_upper_dot) as Hs.
  simpl in Hs. rewrite Hs.
  rewrite string_map_map. apply string_map_ext, ascii_lower_upper.
Qed.

Lemma validate_with_filename cfg file c name :
  validate_image_file cfg (with_filename file (String c name))
  = if negb (String.prefix "image/" (default EmptyString (up_content_type file)))
    then Raise (HTTPException 400 "File must be an image")
    else if string_in (lower (split_dot_last (String c name)))
              (ALLOWED_EXTENSIONS cfg)
    then Return tt
    else Raise (HTTPException 400
                  ("Only " +:+ upper (join ", " (ALLOWED_EXTENSIONS cfg))
                   +:+ " images are supported")).
Proof. done. Qed.

(** X2.  The check of the extension does not depend on the case of the
    letters of a file name of ASCII characters. *)
Theorem validate_image_file_ignores_case cfg file name :
  is_ascii name = true →
  validate_image_file cfg (with_filename file (lower name))
    = validate_image_file cfg (with_filename file name) ∧
  validate_image_file cfg (with_filename file (upper name))
    = validate_image_file cfg (with_filename file name).
Proof.
  intros _. destruct name as [|c name]; [done|].
  change (lower (String c name)) with
    (String (ascii_lower c) (lower name)).
  change (upper (String c name)) with
    (String (ascii_upper c) (upper name)).
  rewrite !validate_with_filename.
  change (String (ascii_lower c) (lower name)) with (lower (String c name)).
  change (String (ascii_upper c) (upper name)) with (upper (String c name)).
  by rewrite extension_lower, extension_upper.
Qed.

(** ** Uploads *)

Section ingestion_more.
Context `{!MLBackend}.

(** X1.  An upload that fails validation, or is larger than the maximum, is
    answered with status 400 before anything is written: no file, no row
    and no line in the log. *)
Theorem upload_rejected_before_write cfg env file user w :
  validate_image_file cfg file ≠ Return tt ∨
  MAX_FILE_SIZE cfg < Z.of_nat (length (up_content file)) →
  ∃ detail,
    upload_image cfg env file user w = (Raise (HTTPException 400 detail), w).
Proof.
  intros Hbad. unfold upload_image. run_M.
  destruct (validate_image_file_outcome cfg file) as [Hv|[detail Hv]];
    rewrite Hv; run_M; [|eauto].
  destruct Hbad as [Hbad|Hbad]; [done|].
  rewrite (proj2 (Z.ltb_lt _ _) Hbad). run_M. eauto.
Qed.

(** X3.  An upload without a file name passes the validation of the type
    and of the size, and then fails on the missing name: it is answered
    with status 500, and no file and no row is written. *)
Theorem upload_without_filename cfg env file user w :
  up_filename file = None →
  String.prefix "image/" (default EmptyString (up_content_type file)) = true →
  Z.of_nat (length (up_content file)) ≤ MAX_FILE_SIZE cfg →
  let run := upload_image cfg env file user w in
  run.1 = Raise (HTTPException 500
            "Error processing image: 'NoneType' object has no attribute 'split'") ∧
  fs run.2 = fs w ∧ images_table run.2 = images_table w.
Proof.
  intros Hname Hct Hsize. unfold upload_image, validate_image_file.
  run_M. rewrite Hct, Hname. run_M.
  rewrite (proj2 (Z.ltb_ge _ _) Hsize). by run_M.
Qed.

(** What the stored part does when no stage fails. *)
Lemma store_and_process_success env file unique_filename path user w :
  failing_stage env file unique_filename w = None →
  ∃ text vector,
    image_verify (up_content file) = true ∧
    caption_model_generate (up_content file) = Return text ∧
    embedding_model_encode text = Return vector ∧
    let row := stored_row env file unique_filename path text
                 (serialize_embedding vector) (images_table w) in
    let run := store_and_process env file unique_filename path user w in
    run.1 = Return (upload_response row) ∧
    fs run.2 = <[path:=up_content file]> (fs w) ∧
    images_table run.2 = images_table w ++ [row] ∧
    filename_taken unique_filename w = false.
Proof.
  unfold store_and_process, verify_image, file_write, file_read, os_remove,
    get_ml_service, MLService_init, mark_ml_service_loaded,
    generate_caption, generate_embedding, db_commit, insert_row, file_read,
    failing_stage, models_ready, faulty, filename_taken, lib_exn.
  run_M. rewrite lookup_insert_eq. run_M.
  destruct (image_verify (up_content file)) eqn:Hv; run_M; [|done].
  destruct (ml_service_loaded w) eqn:Hl; run_M;
  [|destruct (ml_init_fault env) eqn:Hf; run_M; [done|]].
  all: rewrite ?lookup_insert_eq; run_M.
  all: destruct (caption_model_generate (up_content file)) as [text|] eqn:Hc;
    run_M; [|done].
  all: destruct (embedding_model_encode text) as [vector|] eqn:He;
    run_M; [|done].
  all: destruct (db_fault env DbAdd) eqn:Ha; run_M; [done|].
  all: destruct (db_fault env DbCommit) eqn:Hcm; run_M; [done|].
  all: match goal with
    | |- context [existsb ?f ?l] => destruct (existsb f l) eqn:Hex; run_M
    end; [done|].
  all: destruct (db_fault env DbRefresh) eqn:Hr; run_M; [done|].
  all: intros _; exists text, vector; by rewrite ?Hl.
Qed.


(** The table after the stored part: as it was, or with the new row at its
    end, and then the file name was not taken. *)
Lemma store_and_process_table env file unique_filename path user w :
  let run := store_and_process env file unique_filename path user w in
  images_table run.2 = images_table w ∨
  (filename_taken unique_filename w = false ∧
   ∃ text blob,
     images_table run.2
     = images_table w
       ++ [stored_row env file unique_filename path text blob (images_table w)]).
Proof.
  unfold store_and_process, verify_image, file_write, file_read, os_remove,
    get_ml_service, MLService_init, mark_ml_service_loaded,
    generate_caption, generate_embedding, db_commit, insert_row, file_read,
    filename_taken, lib_exn, stored_row.
  run_M. rewrite lookup_insert_eq. run_M.
  destruct (image_verify (up_content file)) eqn:Hv; run_M.
  2:{ rewrite lookup_insert_eq. run_M. by left. }
  destruct (ml_service_loaded w) eqn:Hl; run_M;
  [|destruct (ml_init_fault env) eqn:Hf; run_M].
  all: rewrite ?lookup_insert_eq; run_M.
  all: repeat match goal with
    | |- context [caption_model_generate ?c] =>
        destruct (caption_model_generate c) eqn:?; run_M
    | |- context [embedding_model_encode ?c] =>
        destruct (embedding_model_encode c) eqn:?; run_M
    | |- context [db_fault ?ev ?op] =>
        destruct (db_fault ev op) eqn:?; run_M
    | |- context [existsb ?f ?l] =>
        destruct (existsb f l) eqn:?; run_M
    end.
  all: first [by left | right; split; [done|]; eauto].
Qed.

Lemma upload_image_table cfg env file user w :
  let run := upload_image cfg env file user w in
  images_table run.2 = images_table w ∨
  ∃ row,
    id row = next_id (images_table w) ∧
    filename_taken (filename row) w = false ∧
    images_table run.2 = images_table w ++ [row].
Proof.
  destruct (validate_image_file_outcome cfg file) as [Hv|[detail Hv]].
  2:{ left. unfold upload_image. run_M. rewrite Hv. by run_M. }
  destruct (decide (MAX_FILE_SIZE cfg < Z.of_nat (length (up_content file))))
    as [Hbig|Hsize].
  { left. unfold upload_image. run_M. rewrite Hv. run_M.
    rewrite (proj2 (Z.ltb_lt _ _) Hbig). by run_M. }
  apply Z.nlt_ge in Hsize.
  destruct (up_filename file) as [name|] eqn:Hname.
  2:{ left. unfold upload_image. run_M. rewrite Hv. run_M.
      rewrite (proj2 (Z.ltb_ge _ _) Hsize), Hname. by run_M. }
  pose proof (upload_image_stored cfg env file user w name Hv Hsize Hname)
    as Hrun.
  destruct (upload_file_path cfg env name) as [unique path].
  pose proof (store_and_process_table env file unique path user w) as Ht.
  simpl in *.
  assert (images_table (upload_image cfg env file user w).2
          = images_table (store_and_process env file unique path user w).2)
    as ->.
  { destruct (store_and_process env file unique path user w) as [o w1].
    simpl in *. destruct o as [resp|[code detail|cls msg]].
    - by rewrite Hrun.
    - by rewrite Hrun.
    - by destruct Hrun as (_ & _ & ->). }
  destruct Ht as [Ht|(Hfree & text & blob & Ht)]; [by left|].
  right. eexists. split_and!; [| |exact Ht]; done.
Qed.

Lemma next_id_fresh (t : list ImageRecord) r : r ∈ t → id r < next_id t.
Proof.
  unfold next_id.
  induction 1 as [r t|r r' t Hin IH]; rewrite fmap_cons; cbn [foldr]; lia.
Qed.

Lemma filename_taken_false name w :
  filename_taken name w = false → name ∉ filename <$> images_table w.
Proof.
  unfold filename_taken. intros Hex Hin.
  apply list_elem_of_fmap in Hin as (r & -> & Hin).
  assert (existsb (λ r0, String.eqb (filename r0) (filename r))
            (images_table w) = true) as Ht; [|congruence].
  apply existsb_exists. exists r. split; [by apply list_elem_of_In|].
  apply String.eqb_refl.
Qed.

(** X5.  Whatever its outcome, an upload changes no row and removes none:
    the table it leaves begins with the table it found; and primary keys
    and file names stay unique. *)
Theorem upload_keeps_rows_and_keys cfg env file user w :
  let t := images_table w in
  let t' := images_table (upload_image cfg env file user w).2 in
  t `prefix_of` t' ∧
  (NoDup (id <$> t) → NoDup (id <$> t')) ∧
  (NoDup (filename <$> t) → NoDup (filename <$> t')).
Proof.
  simpl.
  destruct (upload_image_table cfg env file user w)
    as [->|(row & Hid & Hfree & ->)]; [done|].
  split_and!.
  - by apply prefix_app_r.
  - intros Hnd. rewrite fmap_app. simpl. apply NoDup_app.
    split_and!; [done| |apply NoDup_singleton].
    intros i Hi Hrow. apply list_elem_of_singleton in Hrow as ->.
    apply list_elem_of_fmap in Hi as (r & Hr & Hin).
    apply next_id_fresh in Hin. lia.
  - intros Hnd. rewrite fmap_app. simpl. apply NoDup_app.
    split_and!; [done| |apply NoDup_singleton].
    intros n Hn Hrow. apply list_elem_of_singleton in Hrow as ->.
    by apply filename_taken_false in Hfree.
Qed.

End ingestion_more.

Section store_facts.
Context `{!MLBackend}.

(** An upload that answers has passed every stage: what it returns is the
    row it stored. *)
Lemma upload_image_Return cfg env file user w resp w' :
  upload_image cfg env file user w = (Return resp, w') →
  ∃ name text vector,
    up_filename file = Some name ∧
    image_verify (up_content file) = true ∧
    caption_model_generate (up_content file) = Return text ∧
    embedding_model_encode text = Return vector ∧
    let '(unique, path) := upload_file_path cfg env name in
    let row := stored_row env file unique path text
                 (serialize_embedding vector) (images_table w) in
    resp = upload_response row ∧
    fs w' = <[path:=up_content file]> (fs w) ∧
    images_table w' = images_table w ++ [row].
Proof.
  intros Hrun.
  destruct (validate_image_file_outcome cfg file) as [Hv|[detail Hv]].
  2:{ revert Hrun. unfold upload_image. run_M. rewrite Hv. by run_M. }
  destruct (decide (MAX_FILE_SIZE cfg < Z.of_nat (length (up_content file))))
    as [Hbig|Hsize].
  { revert Hrun. unfold upload_image. run_M. rewrite Hv. run_M.
    rewrite (proj2 (Z.ltb_lt _ _) Hbig). by run_M. }
  apply Z.nlt_ge in Hsize.
  destruct (up_filename file) as [name|] eqn:Hname.
  2:{ revert Hrun. unfold upload_image. run_M. rewrite Hv. run_M.
      rewrite (proj2 (Z.ltb_ge _ _) Hsize), Hname. by run_M. }
  pose proof (upload_image_stored cfg env file user w name Hv Hsize Hname)
    as Hst.
  exists name.
  destruct (upload_file_path cfg env name) as [unique path].
  destruct (store_and_process_stages env file unique path user w)
    as (_ & Hstages).
  pose proof (store_and_process_success env file unique path user w) as Hok.
  destruct (failing_stage env file unique w) as [s|].
  - exfalso. simpl in *.
    destruct (store_and_process env file unique path user w) as [o w1].
    simpl in *.
    destruct s;
      [destruct Hstages as (-> & _)
      |destruct Hstages as ((cls & msg & ->) & _)..].
    + rewrite Hst in Hrun. done.
    + destruct Hst as ([d Hd] & _). rewrite Hrun in Hd. done.
    + destruct Hst as ([d Hd] & _). rewrite Hrun in Hd. done.
    + destruct Hst as ([d Hd] & _). rewrite Hrun in Hd. done.
    + destruct Hst as ([d Hd] & _). rewrite Hrun in Hd. done.
    + destruct Hst as ([d Hd] & _). rewrite Hrun in Hd. done.
  - destruct (Hok eq_refl)
      as (text & vector & Hver & Hc & He & Ho & Hfs & Ht & _).
    exists text, vector. simpl in *.
    destruct (store_and_process env file unique path user w) as [o w1].
    simpl in *. subst o. rewrite Hst in Hrun.
    injection Hrun as <- <-. done.
Qed.

End store_facts.

(** ** Rows by primary key *)

Lemma find_image_new (t : list ImageRecord) row :
  id row = next_id t → find_image (id row) (t ++ [row]) = Some row.
Proof.
  intros Hid. unfold find_image. rewrite Hid.
  assert (∀ l, (∀ r, r ∈ l → id r < next_id t) →
    find (λ r, id r =? next_id t) (l ++ [row]) = Some row) as Hl.
  { induction l as [|r l IH]; intros Hlt; simpl.
    - by rewrite <- Hid, Z.eqb_refl.
    - destruct (id r =? next_id t) eqn:Hr.
      + apply Z.eqb_eq in Hr. specialize (Hlt r ltac:(left)). lia.
      + apply IH. intros r' Hr'. apply Hlt. by right. }
  apply Hl. intros r. apply next_id_fresh.
Qed.

Lemma without_id_new (t : list ImageRecord) row :
  id row = next_id t → without_id (id row) (t ++ [row]) = t.
Proof.
  intros Hid. unfold without_id. rewrite List.filter_app. simpl.
  rewrite Z.eqb_refl. simpl. rewrite app_nil_r.
  rewrite Hid.
  assert (∀ l, (∀ r, r ∈ l → id r < next_id t) →
    List.filter (λ r, negb (id r =? next_id t)) l = l) as Hl.
  { induction l as [|r l IH]; intros Hlt; simpl; [done|].
    destruct (id r =? next_id t) eqn:Hr; simpl.
    - apply Z.eqb_eq in Hr. specialize (Hlt r ltac:(left)). lia.
    - f_equal. apply IH. intros r' Hr'. apply Hlt. by right. }
  apply Hl. intros r. apply next_id_fresh.
Qed.

Lemma find_image_without_id i t : find_image i (without_id i t) = None.
Proof.
  unfold find_image, without_id. induction t as [|r t IH]; simpl; [done|].
  destruct (id r =? i) eqn:Hr; simpl; [done|]. by rewrite Hr.
Qed.

Lemma find_image_without_other i j t :
  i ≠ j → find_image j (without_id i t) = find_image j t.
Proof.
  intros Hij. unfold find_image, without_id.
  induction t as [|r t IH]; simpl; [done|].
  destruct (id r =? i) eqn:Hr; simpl.
  - apply Z.eqb_eq in Hr. rewrite (proj2 (Z.eqb_neq (id r) j)) by lia. done.
  - destruct (id r =? j); [done|]. done.
Qed.

Lemma find_image_Some i t r :
  find_image i t = Some r → r ∈ t ∧ id r = i.
Proof.
  unfold find_image. intros Hf. apply find_some in Hf as [Hin Hid].
  split; [by apply list_elem_of_In|]. by apply Z.eqb_eq.
Qed.

(** ** The handlers of one image *)

Lemma get_image_details_run env i user w :
  db_fault env DbQueryAll = None →
  get_image_details env i user w
  = (match find_image i (images_table w) with
     | Some r => Return (details_response r)
     | None => Raise (HTTPException 404 "Image not found")
     end, w).
Proof.
  intros Hq. unfold get_image_details, db_query_first, gets. run_M.
  rewrite Hq. run_M. by destruct (find_image i (images_table w)).
Qed.

Lemma download_image_run env i user w :
  db_fault env DbQueryAll = None →
  download_image env i user w
  = (match find_image i (images_table w) with
     | Some r =>
         if bool_decide (is_Some (fs w !! file_path r))
         then Return {| fr_path := file_path r;
                        fr_filename := filename r;
                        fr_media_type := content_type r |}
         else Raise (HTTPException 404 "Image file not found on disk")
     | None => Raise (HTTPException 404 "Image not found")
     end, w).
Proof.
  intros Hq. unfold download_image, db_query_first, gets, os_path_exists.
  run_M. rewrite Hq. run_M.
  destruct (find_image i (images_table w)); [|done]. run_M.
  by case_bool_decide.
Qed.

Lemma delete_image_run env i user w r :
  db_fault env DbQueryAll = None →
  find_image i (images_table w) = Some r →
  let run := delete_image env i user w in
  fs run.2 = delete (file_path r) (fs w) ∧
  match db_fault env DbCommit with
  | None =>
      run.1 = Return "Image deleted successfully" ∧
      images_table run.2 = without_id (id r) (images_table w)
  | Some _ =>
      run.1 = Raise (HTTPException 500 "Error deleting image") ∧
      images_table run.2 = images_table w
  end.
Proof.
  intros Hq Hf. unfold delete_image, db_query_first, gets, os_path_exists,
    os_remove, db_delete_commit, delete_row.
  run_M. rewrite Hq. run_M. rewrite Hf. run_M.
  case_bool_decide as Hp; run_M.
  - destruct Hp as [c Hc]. rewrite Hc. run_M.
    destruct (db_fault env DbCommit); by run_M.
  - assert (fs w !! file_path r = None) as Hn.
    { destruct (fs w !! file_path r) eqn:Hc; [|done]. by destruct Hp. }
    rewrite (delete_id _ _ Hn).
    destruct (db_fault env DbCommit); by run_M.
Qed.

Lemma delete_image_missing env i user w :
  db_fault env DbQueryAll = None →
  find_image i (images_table w) = None →
  delete_image env i user w
  = (Raise (HTTPException 404 "Image not found"), w).
Proof.
  intros Hq Hf. unfold delete_image, db_query_first, gets. run_M.
  rewrite Hq. run_M. by rewrite Hf.
Qed.

(** ** Uploaded images, read back and deleted *)

Section stored_images.
Context `{!MLBackend}.

(** X4.  What a successful upload answers is what it stored: the table
    gains one row at its end, with a primary key greater than all the
    others, the caption of the captioning model and the encoded embedding
    of that caption; the answer repeats the row, and the file of the row
    holds the uploaded bytes: it is a valid image of the size the row
    records. *)
Theorem upload_answer_is_stored_row cfg env file user w resp w' :
  upload_image cfg env file user w = (Return resp, w') →
  ∃ row,
    images_table w' = images_table w ++ [row] ∧
    (∀ r, r ∈ images_table w → id r < id row) ∧
    resp = upload_response row ∧
    fs w' !! file_path row = Some (up_content file) ∧
    get_file_size (file_path row) w' = Some (file_size row) ∧
    validate_image_format (file_path row) w' = true ∧
    caption_model_generate (up_content file) = Return (caption row) ∧
    ∃ vector,
      embedding_model_encode (caption row) = Return vector ∧
      embedding row = serialize_embedding vector.
Proof.
  intros Hrun.
  apply upload_image_Return in Hrun
    as (name & text & vector & Hname & Hver & Hc & He & Hrow).
  destruct (upload_file_path cfg env name) as [unique path].
  destruct Hrow as (-> & Hfs & Ht).
  eexists. split_and!; [exact Ht| |done| | | |done|].
  - intros r Hr. simpl. by apply next_id_fresh.
  - simpl. rewrite Hfs. apply lookup_insert_eq.
  - unfold get_file_size. simpl. by rewrite Hfs, lookup_insert_eq.
  - unfold validate_image_format. simpl. by rewrite Hfs, lookup_insert_eq.
  - exists vector. by split.
Qed.

(** X6.  The details of an image just uploaded are those the upload
    answered, without a similarity score. *)
Theorem upload_then_details cfg env file user w resp w' env' user' :
  upload_image cfg env file user w = (Return resp, w') →
  db_fault env' DbQueryAll = None →
  ∃ details,
    get_image_details env' (u_id resp) user' w' = (Return details, w') ∧
    r_id details = u_id resp ∧
    r_filename details = u_filename resp ∧
    r_caption details = u_caption resp ∧
    r_upload_time details = u_upload_time resp ∧
    r_file_size details = u_file_size resp ∧
    r_content_type details = default EmptyString (up_content_type file) ∧
    similarity_score details = None.
Proof.
  intros Hrun Hq.
  apply upload_image_Return in Hrun
    as (name & text & vector & Hname & Hver & Hc & He & Hrow).
  destruct (upload_file_path cfg env name) as [unique path].
  destruct Hrow as (-> & Hfs & Ht).
  set (row := stored_row env file unique path text
                (serialize_embedding vector) (images_table w)) in *.
  change (u_id (upload_response row)) with (id row).
  rewrite get_image_details_run, Ht by done.
  rewrite (find_image_new (images_table w) row eq_refl).
  eexists. split; [done|]. by simpl.
Qed.

(** X7.  The download of an image just uploaded serves the bytes that were
    uploaded, under the stored name and the content type of the upload. *)
Theorem upload_then_download cfg env file user w resp w' env' user' :
  upload_image cfg env file user w = (Return resp, w') →
  db_fault env' DbQueryAll = None →
  ∃ served,
    download_image env' (u_id resp) user' w' = (Return served, w') ∧
    served_content w' served = Some (up_content file) ∧
    fr_filename served = u_filename resp ∧
    fr_media_type served = default EmptyString (up_content_type file).
Proof.
  intros Hrun Hq.
  apply upload_image_Return in Hrun
    as (name & text & vector & Hname & Hver & Hc & He & Hrow).
  destruct (upload_file_path cfg env name) as [unique path].
  destruct Hrow as (-> & Hfs & Ht).
  set (row := stored_row env file unique path text
                (serialize_embedding vector) (images_table w)) in *.
  change (u_id (upload_response row)) with (id row).
  rewrite download_image_run, Ht by done.
  rewrite (find_image_new (images_table w) row eq_refl).
  change (file_path row) with path.
  rewrite Hfs, lookup_insert_eq.
  rewrite bool_decide_eq_true_2 by eauto.
  eexists. split; [done|]. unfold served_content. simpl.
  by rewrite Hfs, lookup_insert_eq.
Qed.

(** X8.  The deletion of an image just uploaded undoes the upload: the
    table is the one before the upload and the file is gone. *)
Theorem upload_then_delete cfg env file user w resp w' env' user' :
  upload_image cfg env file user w = (Return resp, w') →
  db_fault env' DbQueryAll = None →
  db_fault env' DbCommit = None →
  let run := delete_image env' (u_id resp) user' w' in
  run.1 = Return "Image deleted successfully" ∧
  images_table run.2 = images_table w ∧
  ∃ path,
    fs w' !! path = Some (up_content file) ∧
    fs run.2 = delete path (fs w).
Proof.
  intros Hrun Hq Hcm.
  apply upload_image_Return in Hrun
    as (name & text & vector & Hname & Hver & Hc & He & Hrow).
  destruct (upload_file_path cfg env name) as [unique path].
  destruct Hrow as (-> & Hfs & Ht).
  set (row := stored_row env file unique path text
                (serialize_embedding vector) (images_table w)) in *.
  change (u_id (upload_response row)) with (id row). cbv zeta.
  destruct (delete_image_run env' (id row) user' w' row Hq) as (Hfs' & Hd).
  { rewrite Ht. by apply find_image_new. }
  rewrite Hcm in Hd. destruct Hd as (Ho & Ht').
  split_and!; [done| |].
  - rewrite Ht', Ht. by apply without_id_new.
  - exists path. split; [by rewrite Hfs, lookup_insert_eq|].
    rewrite Hfs', Hfs. apply delete_insert_eq.
Qed.

End stored_images.

(** X9.  After the deletion of an image, its file is gone and its primary
    key is unknown to the three handlers of one image; the other rows are
    found as before. *)
Theorem delete_then_not_found env i user w r env' user' :
  db_fault env DbQueryAll = None →
  db_fault env DbCommit = None →
  find_image i (images_table w) = Some r →
  db_fault env' DbQueryAll = None →
  let run := delete_image env i user w in
  let gone := HTTPException 404 "Image not found" in
  run.1 = Return "Image deleted successfully" ∧
  fs run.2 !! file_path r = None ∧
  (get_image_details env' i user' run.2).1 = Raise gone ∧
  (download_image env' i user' run.2).1 = Raise gone ∧
  (delete_image env' i user' run.2).1 = Raise gone ∧
  ∀ j, j ≠ i →
    find_image j (images_table run.2) = find_image j (images_table w).
Proof.
  intros Hq Hcm Hf Hq'. simpl.
  destruct (delete_image_run env i user w r Hq Hf) as (Hfs & Hd).
  rewrite Hcm in Hd. destruct Hd as (Ho & Ht).
  destruct (find_image_Some _ _ _ Hf) as [_ Hid].
  rewrite get_image_details_run, download_image_run by done.
  rewrite Hfs, Ht, Hid, find_image_without_id. simpl.
  split_and!; [done|apply lookup_delete_eq|done|done| |].
  - rewrite delete_image_missing; [done|done|].
    by rewrite Ht, Hid, find_image_without_id.
  - intros j Hj. by apply find_image_without_other.
Qed.

(** X10.  The deletion is not atomic: the file is removed before the row,
    and when the commit raises, the answer is status 500, the row stays
    and its file is gone; a download of the image then answers that the
    file is not on disk. *)
Theorem delete_commit_failure env i user w r e env' user' :
  db_fault env DbQueryAll = None →
  db_fault env DbCommit = Some e →
  find_image i (images_table w) = Some r →
  db_fault env' DbQueryAll = None →
  let run := delete_image env i user w in
  run.1 = Raise (HTTPException 500 "Error deleting image") ∧
  images_table run.2 = images_table w ∧
  fs run.2 !! file_path r = None ∧
  (download_image env' i user' run.2).1
    = Raise (HTTPException 404 "Image file not found on disk").
Proof.
  intros Hq Hcm Hf Hq'. simpl.
  destruct (delete_image_run env i user w r Hq Hf) as (Hfs & Hd).
  rewrite Hcm in Hd. destruct Hd as (Ho & Ht).
  rewrite download_image_run by done.
  rewrite Hfs, Ht, Hf. simpl. rewrite lookup_delete_eq.
  split_and!; [done|done|done|].
  rewrite bool_decide_eq_false_2; [done|]. by intros [? ?].
Qed.

(** X11.  A primary key that no row has is answered with status 404 by the
    details, the download and the deletion, and the state is left as it
    was. *)
Theorem unknown_image_not_found env i user w :
  db_fault env DbQueryAll = None →
  find_image i (images_table w) = None →
  let gone := HTTPException 404 "Image not found" in
  get_image_details env i user w = (Raise gone, w) ∧
  download_image env i user w = (Raise gone, w) ∧
  delete_image env i user w = (Raise gone, w).
Proof.
  intros Hq Hf. simpl.
  rewrite get_image_details_run, download_image_run, Hf by done.
  split_and!; [done|done|]. by apply delete_image_missing.
Qed.

(** X12.  When the query of a handler of one image raises, the exception
    leaves the route and the application answers with status 500 and a
    fixed detail, the text of the exception going to the log only; files
    and rows are untouched. *)
Theorem failed_query_is_internal_error env i user w e :
  db_fault env DbQueryAll = Some e →
  let answer := HTTPException 500 "Internal server error occurred" in
  let logged := LogError ("Global exception handler caught: " +:+ err_msg e) in
  let w' := {| fs := fs w; images_table := images_table w;
               ml_service_loaded := ml_service_loaded w;
               log := log w ++ [logged] |} in
  global_exception_handler (get_image_details env i user) w
    = (Raise answer, w') ∧
  global_exception_handler (download_image env i user) w
    = (Raise answer, w') ∧
  global_exception_handler (delete_image env i user) w
    = (Raise answer, w').
Proof.
  intros Hq. simpl.
  unfold global_exception_handler, get_image_details, download_image,
    delete_image, db_query_first, gets, lib_exn.
  run_M. rewrite Hq. by run_M.
Qed.

(** ** More on the ranker and on searches *)

Lemma rank_subset {A} t limit (images : list A) sims c :
  c ∈ rank t limit images sims →
  c ∈ zip images sims ∧ (t <= score c)%Q.
Proof.
  unfold rank, filter_and_sort. intros Hc.
  destruct (slice_to_take limit
              (sort_desc (List.filter (passes t) (zip images sims))))
    as [k Hk].
  rewrite Hk in Hc. apply subseteq_take in Hc.
  rewrite sort_desc_perm in Hc.
  apply list_elem_of_In, filter_In in Hc as [Hin Hp].
  split; [by apply list_elem_of_In|]. by apply Qle_bool_iff.
Qed.

Lemma rank_length {A} t limit (images : list A) sims :
  0 ≤ limit →
  Z.of_nat (length (rank t limit images sims))
  = Z.min limit
      (Z.of_nat (length (List.filter (passes t) (zip images sims)))).
Proof.
  intros Hl. unfold rank, filter_and_sort.
  rewrite slice_to_nonneg, length_take, sort_desc_length by done. lia.
Qed.

Lemma rank_all {A} t limit (images : list A) sims :
  Z.of_nat (length (List.filter (passes t) (zip images sims))) ≤ limit →
  rank t limit images sims ≡ₚ List.filter (passes t) (zip images sims).
Proof.
  intros Hl. unfold rank, filter_and_sort.
  rewrite slice_to_nonneg by lia.
  rewrite take_ge by (rewrite sort_desc_length; lia).
  apply sort_desc_perm.
Qed.

Section search_more.
Context `{!MLBackend}.

(** X13.  Every result of a search is a row of the table, with its fields
    and with the similarity of that row to the query, and this similarity
    is at least the threshold. *)
Theorem search_results_are_stored_matches env q limit threshold user w resp :
  (search_images env q limit threshold user w).1 = Return resp →
  ∀ r, r ∈ results resp →
    ∃ image s,
      image ∈ images_table w ∧
      similarity_of q image = Return s ∧
      (threshold <= s)%Q ∧
      r = image_response (image, s).
Proof.
  intros Hrun r Hr.
  destruct (search_images_run env q limit threshold user w) as (Ho & _).
  rewrite Ho in Hrun.
  apply search_result_Return in Hrun as (sims & Hcands & ->). simpl in Hr.
  apply list_elem_of_fmap in Hr as ([image s] & -> & Hc).
  apply rank_subset in Hc as [Hin Hs].
  exists image, s. split_and!; [|  |done|done].
  - by apply elem_of_zip_l in Hin.
  - pose proof (scored_candidates_scores _ _ _ Hcands) as Hall.
    by apply (proj1 (Forall_forall _ _) Hall _ Hin).
Qed.

(** X14.  The number of results is the smaller of [limit] and the number of
    stored items whose similarity passes the threshold; when they are not
    more than [limit], all of them are returned. *)
Theorem search_returns_matches_up_to_limit env q limit threshold user w resp :
  0 ≤ limit →
  (search_images env q limit threshold user w).1 = Return resp →
  ∃ cands,
    scored_candidates q (images_table w) = Return cands ∧
    let matches := List.filter (passes threshold) cands in
    total_results resp = Z.min limit (Z.of_nat (length matches)) ∧
    (Z.of_nat (length matches) ≤ limit →
     results resp ≡ₚ image_response <$> matches).
Proof.
  intros Hl Hrun.
  destruct (search_images_run env q limit threshold user w) as (Ho & _).
  rewrite Ho in Hrun.
  apply search_result_Return in Hrun as (sims & Hc & ->).
  exists (zip (images_table w) sims). split; [done|]. simpl. split.
  - rewrite length_fmap. by apply rank_length.
  - intros Hm. by rewrite rank_all.
Qed.

(** X15.  A search writes nothing, whatever its outcome: the files and the
    rows are those it found, and the log keeps its earlier records. *)
Theorem search_images_read_only env q limit threshold user w :
  let w' := (search_images env q limit threshold user w).2 in
  fs w' = fs w ∧ images_table w' = images_table w ∧
  log w `prefix_of` log w'.
Proof.
  simpl.
  destruct (search_images_run env q limit threshold user w)
    as (_ & Ht & Hfs & _).
  split_and!; [done|done|].
  unfold search_images, get_ml_service, MLService_init,
    generate_embedding, db_query_all, read_images_table,
    mark_ml_service_loaded.
  run_M.
  destruct (ml_service_loaded w) eqn:Hl; run_M;
  [|destruct (ml_init_fault env) eqn:Hf; run_M];
  (destruct (embedding_model_encode q) eqn:He; run_M;
   [destruct (db_fault env DbQueryAll) eqn:Hd; run_M;
    [|destruct (images_table w) as [|i t] eqn:Hi; run_M;
      [|destruct (load_embeddings (i :: t)) eqn:Hld; run_M]]|]).
  all: try match goal with
    | |- context [calculate_similarity ?a ?b] =>
        destruct (calculate_similarity a b) eqn:Hc; run_M
    end.
  all: rewrite <- ?(assoc_L (++)); by apply prefix_app_r.
Qed.

(** X16.  The models are loaded once: after a call of [get_ml_service] that
    succeeded, every later call returns at once and changes nothing,
    whatever would happen to a new load; after a call that failed the
    service is still not loaded, so the next call tries again. *)
Theorem get_ml_service_loads_once env w :
  let run := get_ml_service env w in
  (run.1 = Return tt →
   ∀ env', get_ml_service env' run.2 = (Return tt, run.2)) ∧
  (∀ e, run.1 = Raise e →
     ml_service_loaded w = false ∧ ml_service_loaded run.2 = false ∧
     ∃ fault, ml_init_fault env = Some fault ∧ e = lib_exn fault).
Proof.
  simpl. unfold get_ml_service, MLService_init, mark_ml_service_loaded.
  destruct (ml_service_loaded w) eqn:Hl; run_M.
  - rewrite Hl. split; [done|]. intros e He. done.
  - destruct (ml_init_fault env) as [fault|]; run_M.
    + rewrite Hl. split; [done|]. intros e [= <-]. eauto.
    + split; [done|]. intros e He. done.
Qed.


End search_more.

(** ** Rounding, continued *)



(** ** The history *)

Lemma get_image_history_run order_by env limit offset user w :
  db_fault env DbQueryAll = None →
  get_image_history order_by env limit offset user w
  = (Return (details_response
               <$> query_history order_by limit offset (images_table w)), w).
Proof.
  intros Hq. unfold get_image_history, gets. run_M. rewrite Hq. by run_M.
Qed.

Lemma query_history_tile order_by l1 l2 o (t : list ImageRecord) :
  0 ≤ l1 → 0 ≤ l2 → 0 ≤ o →
  query_history order_by l1 o t ++ query_history order_by l2 (o + l1) t
  = query_history order_by (l1 + l2) o t.
Proof.
  intros H1 H2 Ho. unfold query_history.
  rewrite !Z2Nat.inj_add by done.
  rewrite <- drop_drop. apply take_take_drop.
Qed.

(** X18.  Two pages of the history that follow each other make the page of
    both: with the same ordering of the rows, the page of [l1] items from
    [o] followed by the page of [l2] items from [o + l1] is the page of
    [l1 + l2] items from [o]; a page has at most as many items as asked
    for, none with a similarity score, and the state is left as it was. *)
Theorem history_pages_tile order_by env user w l1 l2 o :
  0 ≤ l1 → 0 ≤ l2 → 0 ≤ o →
  db_fault env DbQueryAll = None →
  ∃ p1 p2,
    get_image_history order_by env l1 o user w = (Return p1, w) ∧
    get_image_history order_by env l2 (o + l1) user w = (Return p2, w) ∧
    get_image_history order_by env (l1 + l2) o user w
      = (Return (p1 ++ p2), w) ∧
    Z.of_nat (length p1) ≤ l1 ∧
    Forall (λ r, similarity_score r = None) (p1 ++ p2).
Proof.
  intros H1 H2 Ho Hq. rewrite !get_image_history_run by done.
  eexists _, _. split_and!; [done|done| | |].
  - by rewrite <- fmap_app, query_history_tile.
  - rewrite length_fmap. unfold query_history. rewrite length_take. lia.
  - rewrite <- fmap_app. apply Forall_fmap, Forall_true. done.
Qed.

(** ** [clean_filename] *)

Lemma kept_char_underscore : kept_char "_" = true.
Proof. done. Qed.

Lemma kept_char_ascii c : kept_char c = true → (nat_of_ascii c <? 128)%nat = true.
Proof. by destruct c as [[] [] [] [] [] [] [] []]. Qed.

(** X19.  On a name of ASCII characters [clean_filename] keeps the length,
    leaves only letters, digits, underscores, hyphens and dots, so no path
    separator; a name of such characters is unchanged, and cleaning twice
    is cleaning once. *)
Theorem clean_filename_safe name :
  is_ascii name = true →
  String.length (clean_filename name) = String.length name ∧
  string_forall kept_char (clean_filename name) = true ∧
  string_forall (λ c, negb (Ascii.eqb c "/")) (clean_filename name) = true ∧
  (string_forall kept_char name = true → clean_filename name = name) ∧
  clean_filename (clean_filename name) = clean_filename name.
Proof.
  intros _. unfold clean_filename.
  induction name as [|c name (IH1 & IH2 & IH3 & IH4 & IH5)]; [done|].
  simpl. split_and!.
  - by rewrite IH1.
  - rewrite IH2. destruct (kept_char c) eqn:Hc; by rewrite ?Hc.
  - rewrite IH3. destruct (kept_char c) eqn:Hc; [|done].
    rewrite andb_true_r. by destruct c as [[] [] [] [] [] [] [] []].
  - intros [Hc Hn]%andb_true_iff. by rewrite Hc, IH4.
  - rewrite IH5. destruct (kept_char c) eqn:Hc; by rewrite ?Hc.
Qed.

(** ** The auth router *)

Ltac run_A :=
  repeat (unfold mbind, mret, AuthM_bind, AuthM_ret, a_try_except, a_raise,
            a_lift, a_gets, a_logger, a_db_call; simpl).

Lemma next_user_id_fresh (t : list User) u : u ∈ t → user_id u < next_user_id t.
Proof.
  unfold next_user_id.
  induction 1 as [u t|u u' t Hin IH]; rewrite fmap_cons; cbn [foldr]; lia.
Qed.

Lemma find_user_None name t :
  find_user name t = None ↔ name ∉ username <$> t.
Proof.
  unfold find_user. induction t as [|u t IH]; simpl.
  - split; [|done]. intros _. apply not_elem_of_nil.
  - rewrite not_elem_of_cons. destruct (String.eqb_spec (username u) name).
    + split; [done|]. intros [Hne _]. congruence.
    + rewrite IH. split; [by split|by intros [_ ?]].
Qed.

Lemma find_user_existsb name t :
  find_user name t = None →
  existsb (λ u, String.eqb (username u) name) t = false.
Proof.
  unfold find_user. induction t as [|u t IH]; simpl; [done|].
  destruct (String.eqb (username u) name); [done|]. done.
Qed.

Lemma find_user_new name t u :
  find_user name t = None → username u = name →
  find_user name (t ++ [u]) = Some u.
Proof.
  unfold find_user. intros Hf Hu.
  induction t as [|v t IH]; simpl in *.
  - by rewrite Hu, String.eqb_refl.
  - destruct (String.eqb (username v) name); [done|]. by apply IH.
Qed.

(** On a text of ASCII characters every byte is a code point: [len] is the
    number of bytes, and the text is alphanumeric when it is not empty and
    each byte is a digit or a letter, whatever the table of the other code
    points says. *)
Lemma code_points_from_ascii cp s :
  is_ascii s = true →
  code_points_from cp s = cp :: (N_of_ascii <$> list_ascii_of_string s).
Proof.
  revert cp. induction s as [|c s IH]; intros cp Hs; [done|].
  simpl in Hs. apply andb_prop in Hs as [Hc Hs]. apply Nat.ltb_lt in Hc.
  assert (N_of_ascii c < 128)%N as Hn.
  { unfold nat_of_ascii in Hc. lia. }
  simpl. unfold is_continuation, lead_bits.
  destruct (N.leb_spec 128 (N_of_ascii c)); [lia|].
  destruct (N.ltb_spec (N_of_ascii c) 128); [|lia].
  simpl. by rewrite IH.
Qed.

Lemma code_points_ascii s :
  is_ascii s = true → code_points s = N_of_ascii <$> list_ascii_of_string s.
Proof.
  destruct s as [|c s]; [done|]. intros Hs.
  pose proof Hs as Hs'. simpl in Hs'.
  apply andb_prop in Hs' as [Hc Hs']. apply Nat.ltb_lt in Hc.
  assert (N_of_ascii c < 128)%N as Hn.
  { unfold nat_of_ascii in Hc. lia. }
  simpl. rewrite code_points_from_ascii by done. unfold lead_bits.
  by destruct (N.ltb_spec (N_of_ascii c) 128); [|lia].
Qed.

Lemma len_ascii s : is_ascii s = true → len s = String.length s.
Proof.
  intros Hs. unfold len. rewrite code_points_ascii by done.
  rewrite length_fmap. clear Hs. induction s as [|c s IH]; [done|].
  simpl. by rewrite IH.
Qed.

Lemma forallb_is_alnum_char_ascii `{!UnicodeData} s :
  is_ascii s = true →
  forallb is_alnum_char (N_of_ascii <$> list_ascii_of_string s)
  = string_forall
      (λ c, let n := nat_of_ascii c in
            ((48 <=? n) && (n <=? 57)) || ((65 <=? n) && (n <=? 90))
            || ((97 <=? n) && (n <=? 122)))%nat s.
Proof.
  induction s as [|c s IH]; intros Hs; [done|].
  simpl in Hs. apply andb_prop in Hs as [Hc Hs]. apply Nat.ltb_lt in Hc.
  change (N_of_ascii <$> list_ascii_of_string (String c s))
    with (N_of_ascii c :: (N_of_ascii <$> list_ascii_of_string s)).
  cbn [forallb string_forall]. rewrite IH by done. f_equal.
  unfold is_alnum_char. unfold nat_of_ascii in *.
  destruct (N.ltb_spec (N_of_ascii c) 128); [|lia].
  set (n := N_of_ascii c) in *.
  repeat match goal with
  | |- context [(?a <=? ?b)%N] => destruct (N.leb_spec a b)
  | |- context [(?a <=? ?b)%nat] => destruct (Nat.leb_spec a b)
  end; simpl; try reflexivity; lia.
Qed.

Lemma isalnum_ascii `{!UnicodeData} s :
  is_ascii s = true →
  isalnum s
  = negb (String.eqb s EmptyString)
    && string_forall
         (λ c, let n := nat_of_ascii c in
               ((48 <=? n) && (n <=? 57)) || ((65 <=? n) && (n <=? 90))
               || ((97 <=? n) && (n <=? 122)))%nat s.
Proof.
  intros Hs. unfold isalnum. rewrite code_points_ascii by done.
  rewrite <- forallb_is_alnum_char_ascii by done.
  by destruct s.
Qed.

Section auth_facts.
Context `{!AuthService} `{!UnicodeData}.

(** What a call of [register] does to the table: nothing, or the new user
    at its end, with a name that no row had. *)
Lemma register_table env user w :
  let run := register env user w in
  users_table run.2 = users_table w ∨
  (find_user (uc_username user) (users_table w) = None ∧
   ∃ hash,
     get_password_hash (uc_password user) = Return hash ∧
     users_table run.2
     = users_table w
       ++ [{| user_id := next_user_id (users_table w);
              username := uc_username user;
              hashed_password := hash;
              created_at := utcnow env;
              is_active := 1 |}]).
Proof.
  unfold register, db_query_user, insert_user, lib_exn. run_A.
  destruct (db_fault env DbQueryAll); run_A; [by left|].
  destruct (find_user (uc_username user) (users_table w)) eqn:Hf; run_A;
    [by left|].
  destruct (get_password_hash (uc_password user)) as [hash|[]] eqn:Hh; run_A;
    [|by left..].
  destruct (db_fault env DbAdd); run_A; [by left|].
  destruct (db_fault env DbCommit); run_A; [by left|].
  rewrite (find_user_existsb _ _ Hf). run_A.
  destruct (db_fault env DbRefresh); run_A; right; eauto.
Qed.

Lemma register_endpoint_table env user w :
  let run := register_endpoint env user w in
  users_table run.2 = users_table w ∨
  (username_must_be_valid (uc_username user) = true ∧
   find_user (uc_username user) (users_table w) = None ∧
   ∃ row,
     username row = uc_username user ∧
     user_id row = next_user_id (users_table w) ∧
     is_active row = 1 ∧
     users_table run.2 = users_table w ++ [row]).
Proof.
  unfold register_endpoint.
  destruct (username_must_be_valid (uc_username user)) eqn:Hu; simpl;
    [|by left].
  destruct (password_must_be_valid (uc_password user)); simpl; [|by left].
  destruct (register_table env user w) as [Ht|(Hf & hash & Hh & Ht)];
    [by left|].
  right. split_and!; [done|done|]. eexists. split_and!; [| | |exact Ht]; done.
Qed.

(** X20.  Whatever its outcome, a registration changes no user and removes
    none; user names and primary keys stay unique, and every stored name
    stays a name that the validator accepts: at least three characters,
    all of them alphanumeric. *)
Theorem register_keeps_users_valid env user w :
  let t := users_table w in
  let t' := users_table (register_endpoint env user w).2 in
  t `prefix_of` t' ∧
  (NoDup (username <$> t) → NoDup (username <$> t')) ∧
  (NoDup (user_id <$> t) → NoDup (user_id <$> t')) ∧
  (Forall (λ u, username_must_be_valid (username u) = true) t →
   Forall (λ u, username_must_be_valid (username u) = true) t').
Proof.
  simpl.
  destruct (register_endpoint_table env user w)
    as [->|(Hvalid & Hfree & row & Hname & Hid & _ & ->)]; [done|].
  split_and!.
  - by apply prefix_app_r.
  - intros Hnd. rewrite fmap_app. simpl. apply NoDup_app.
    split_and!; [done| |apply NoDup_singleton].
    intros n Hn Hrow. apply list_elem_of_singleton in Hrow as ->.
    rewrite Hname in Hn. by apply find_user_None in Hfree.
  - intros Hnd. rewrite fmap_app. simpl. apply NoDup_app.
    split_and!; [done| |apply NoDup_singleton].
    intros i Hi Hrow. apply list_elem_of_singleton in Hrow as ->.
    apply list_elem_of_fmap in Hi as (u & Hu & Hin).
    apply next_user_id_fresh in Hin. lia.
  - intros Hall. apply Forall_app. split; [done|].
    apply Forall_singleton. by rewrite Hname.
Qed.

(** X21.  The registration of a name that a user has is answered with status
    400 and changes nothing. *)
Theorem register_existing_username env user w u :
  db_fault env DbQueryAll = None →
  find_user (uc_username user) (users_table w) = Some u →
  register env user w
  = (Raise (HTTPException 400 "Username already registered"), w).
Proof.
  intros Hq Hf. unfold register, db_query_user. run_A.
  rewrite Hq. run_A. by rewrite Hf.
Qed.

(** X22.  A login with a name that no user has and a login with a wrong
    password have the same answer, status 401 with one detail, and both
    leave the state as it was: the answer does not tell whether the name
    is registered. *)
Theorem login_failure_uniform env name password w :
  db_fault env DbQueryAll = None →
  find_user name (users_table w) = None ∨
  (∃ u, find_user name (users_table w) = Some u ∧
        verify_password password (hashed_password u) = Return false) →
  login env name password w
  = (Raise (HTTPException 401 "Incorrect username or password"), w).
Proof.
  intros Hq Hcase. unfold login, db_query_user. run_A. rewrite Hq. run_A.
  destruct Hcase as [->|(u & -> & Hv)]; run_A; [done|].
  rewrite Hv. by run_A.
Qed.

(** X23.  A user whose account is disabled gets status 401 with the right
    password too, and no token is made. *)
Theorem login_disabled_account env name password w u :
  db_fault env DbQueryAll = None →
  find_user name (users_table w) = Some u →
  verify_password password (hashed_password u) = Return true →
  is_active u = 0 →
  login env name password w
  = (Raise (HTTPException 401 "User account is disabled"), w).
Proof.
  intros Hq Hf Hv Ha. unfold login, db_query_user. run_A. rewrite Hq. run_A.
  rewrite Hf. run_A. rewrite Hv. run_A. by rewrite Ha.
Qed.

(** X24.  After a registration that succeeded, the login with the same name
    and password answers the token made for that name, provided the stored
    hash verifies the password and the token can be made. *)
Theorem register_then_login env user w uid w' env' hash token :
  register env user w = (Return uid, w') →
  get_password_hash (uc_password user) = Return hash →
  verify_password (uc_password user) hash = Return true →
  create_access_token (uc_username user) ACCESS_TOKEN_EXPIRE_MINUTES
    = Return token →
  db_fault env' DbQueryAll = None →
  (login env' (uc_username user) (uc_password user) w').1 = Return token ∧
  users_table (login env' (uc_username user) (uc_password user) w').2
    = users_table w'.
Proof.
  intros Hrun Hh Hv Htok Hq.
  assert (find_user (uc_username user) (users_table w')
          = Some {| user_id := uid; username := uc_username user;
                    hashed_password := hash; created_at := utcnow env;
                    is_active := 1 |}) as Hf.
  { revert Hrun. unfold register, db_query_user, insert_user, lib_exn. run_A.
    destruct (db_fault env DbQueryAll); run_A; [done|].
    destruct (find_user (uc_username user) (users_table w)) eqn:Hf; run_A;
      [done|].
    rewrite Hh. run_A.
    destruct (db_fault env DbAdd); run_A; [done|].
    destruct (db_fault env DbCommit); run_A; [done|].
    rewrite (find_user_existsb _ _ Hf). run_A.
    destruct (db_fault env DbRefresh); run_A; [done|].
    intros [= <- <-]. simpl. by apply find_user_new. }
  unfold login, db_query_user. run_A. rewrite Hq. run_A.
  rewrite Hf. run_A. rewrite Hv. run_A. rewrite Htok. by run_A.
Qed.

End auth_facts.

(** ** Further runs on concrete requests *)

Section more_runs.
Import Toy ToyStore ToyAuth.

Lemma upload_rejected_before_write_witness :
  ∃ detail,
    upload_image default_settings env text_file "alice" (world_of [red])
    = (Raise (HTTPException 400 detail), world_of [red]).
Proof.
  apply (upload_rejected_before_write default_settings env text_file "alice"
           (world_of [red])).
  left. vm_compute. discriminate.
Defined.

Lemma validate_image_file_ignores_case_witness :
  validate_image_file default_settings
    (with_filename (jpeg Byte.x01) (lower "Photo.JPG"))
    = validate_image_file default_settings
        (with_filename (jpeg Byte.x01) "Photo.JPG") ∧
  validate_image_file default_settings
    (with_filename (jpeg Byte.x01) (upper "Photo.JPG"))
    = validate_image_file default_settings
        (with_filename (jpeg Byte.x01) "Photo.JPG").
Proof.
  apply (validate_image_file_ignores_case default_settings (jpeg Byte.x01)
           "Photo.JPG").
  reflexivity.
Defined.

Lemma upload_without_filename_witness :
  let run := upload_image default_settings env nameless "alice"
               (world_of [red]) in
  run.1 = Raise (HTTPException 500
            "Error processing image: 'NoneType' object has no attribute 'split'") ∧
  fs run.2 = fs (world_of [red]) ∧
  images_table run.2 = images_table (world_of [red]).
Proof.
  apply (upload_without_filename default_settings env nameless "alice"
           (world_of [red])).
  - reflexivity.
  - reflexivity.
  - vm_compute. discriminate.
Defined.

Lemma uploaded_run :
  upload_image default_settings env (jpeg Byte.x01) "alice" (world_of [red])
  = (Return (upload_answer uploaded.1), uploaded.2).
Proof. vm_compute. reflexivity. Defined.

Lemma upload_answer_is_stored_row_witness :
  ∃ row,
    images_table uploaded.2 = images_table (world_of [red]) ++ [row] ∧
    (∀ r, r ∈ images_table (world_of [red]) → id r < id row) ∧
    upload_answer uploaded.1 = upload_response row ∧
    fs uploaded.2 !! file_path row = Some (up_content (jpeg Byte.x01)) ∧
    get_file_size (file_path row) uploaded.2 = Some (file_size row) ∧
    validate_image_format (file_path row) uploaded.2 = true ∧
    caption_model_generate (up_content (jpeg Byte.x01))
      = Return (caption row) ∧
    ∃ vector,
      embedding_model_encode (caption row) = Return vector ∧
      embedding row = serialize_embedding vector.
Proof.
  apply (upload_answer_is_stored_row default_settings env (jpeg Byte.x01)
           "alice" (world_of [red])).
  exact uploaded_run.
Defined.

Lemma upload_then_details_witness :
  ∃ details,
    get_image_details env (u_id (upload_answer uploaded.1)) "bob" uploaded.2
      = (Return details, uploaded.2) ∧
    r_id details = u_id (upload_answer uploaded.1) ∧
    r_filename details = u_filename (upload_answer uploaded.1) ∧
    r_caption details = u_caption (upload_answer uploaded.1) ∧
    r_upload_time details = u_upload_time (upload_answer uploaded.1) ∧
    r_file_size details = u_file_size (upload_answer uploaded.1) ∧
    r_content_type details
      = default EmptyString (up_content_type (jpeg Byte.x01)) ∧
    similarity_score details = None.
Proof.
  apply (upload_then_details default_settings env (jpeg Byte.x01) "alice"
           (world_of [red]) _ _ env "bob" uploaded_run).
  reflexivity.
Defined.

Lemma upload_then_download_witness :
  ∃ served,
    download_image env (u_id (upload_answer uploaded.1)) "bob" uploaded.2
      = (Return served, uploaded.2) ∧
    served_content uploaded.2 served = Some (up_content (jpeg Byte.x01)) ∧
    fr_filename served = u_filename (upload_answer uploaded.1) ∧
    fr_media_type served
      = default EmptyString (up_content_type (jpeg Byte.x01)).
Proof.
  apply (upload_then_download default_settings env (jpeg Byte.x01) "alice"
           (world_of [red]) _ _ env "bob" uploaded_run).
  reflexivity.
Defined.

Lemma upload_then_delete_witness :
  let run := delete_image env (u_id (upload_answer uploaded.1)) "bob"
               uploaded.2 in
  run.1 = Return "Image deleted successfully" ∧
  images_table run.2 = images_table (world_of [red]) ∧
  ∃ path,
    fs uploaded.2 !! path = Some (up_content (jpeg Byte.x01)) ∧
    fs run.2 = delete path (fs (world_of [red])).
Proof.
  apply (upload_then_delete default_settings env (jpeg Byte.x01) "alice"
           (world_of [red]) _ _ env "bob" uploaded_run); reflexivity.
Defined.

Lemma delete_then_not_found_witness :
  let run := delete_image env 2 "alice" uploaded.2 in
  let gone := HTTPException 404 "Image not found" in
  run.1 = Return "Image deleted successfully" ∧
  fs run.2 !! "uploads/0b5c7e52-6f0e-4c58-9d4b-2f1a3c8e7a10.jpg" = None ∧
  (get_image_details env 2 "bob" run.2).1 = Raise gone ∧
  (download_image env 2 "bob" run.2).1 = Raise gone ∧
  (delete_image env 2 "bob" run.2).1 = Raise gone ∧
  ∀ j, j ≠ 2 →
    find_image j (images_table run.2) = find_image j (images_table uploaded.2).
Proof.
  apply (delete_then_not_found env 2 "alice" uploaded.2
           (stored_row env (jpeg Byte.x01)
              "0b5c7e52-6f0e-4c58-9d4b-2f1a3c8e7a10.jpg"
              "uploads/0b5c7e52-6f0e-4c58-9d4b-2f1a3c8e7a10.jpg"
              "a red square" (dumps [2; 0; 0]) [red])
           env "bob");
    first [reflexivity | vm_compute; reflexivity].
Defined.

Lemma delete_commit_failure_witness :
  let run := delete_image (env_db_fails DbCommit) 2 "alice" uploaded.2 in
  run.1 = Raise (HTTPException 500 "Error deleting image") ∧
  images_table run.2 = images_table uploaded.2 ∧
  fs run.2 !! "uploads/0b5c7e52-6f0e-4c58-9d4b-2f1a3c8e7a10.jpg" = None ∧
  (download_image env 2 "bob" run.2).1
    = Raise (HTTPException 404 "Image file not found on disk").
Proof.
  apply (delete_commit_failure (env_db_fails DbCommit) 2 "alice" uploaded.2
           (stored_row env (jpeg Byte.x01)
              "0b5c7e52-6f0e-4c58-9d4b-2f1a3c8e7a10.jpg"
              "uploads/0b5c7e52-6f0e-4c58-9d4b-2f1a3c8e7a10.jpg"
              "a red square" (dumps [2; 0; 0]) [red])
           {| err_class := "OperationalError";
              err_msg := "database is locked" |}
           env "bob");
    first [reflexivity | vm_compute; reflexivity].
Defined.

Lemma unknown_image_not_found_witness :
  let gone := HTTPException 404 "Image not found" in
  get_image_details env 7 "alice" uploaded.2 = (Raise gone, uploaded.2) ∧
  download_image env 7 "alice" uploaded.2 = (Raise gone, uploaded.2) ∧
  delete_image env 7 "alice" uploaded.2 = (Raise gone, uploaded.2).
Proof.
  apply (unknown_image_not_found env 7 "alice" uploaded.2).
  - reflexivity.
  - vm_compute. reflexivity.
Defined.

Lemma failed_query_is_internal_error_witness :
  (global_exception_handler
     (get_image_details (env_db_fails DbQueryAll) 1 "alice")
     (world_of [red])).1
  = Raise (HTTPException 500 "Internal server error occurred").
Proof.
  destruct (failed_query_is_internal_error (env_db_fails DbQueryAll) 1
              "alice" (world_of [red])
              {| err_class := "OperationalError";
                 err_msg := "database is locked" |} eq_refl)
    as (Hd & _).
  rewrite Hd. reflexivity.
Defined.

Lemma search_results_are_stored_matches_witness :
  let w := world_of [grass; bird; red2; red] in
  Forall
    (λ r, ∃ image s,
       image ∈ images_table w ∧
       similarity_of "red rose" image = Return s ∧
       (1 # 2 <= s)%Q ∧
       r = image_response (image, s))
    (results (answer (search_images env "red rose" 3 (1 # 2) "alice" w).1)).
Proof.
  intros w. apply Forall_forall.
  apply (search_results_are_stored_matches env "red rose" 3 (1 # 2) "alice" w).
  vm_compute. reflexivity.
Defined.


Lemma search_returns_matches_up_to_limit_witness :
  let w := world_of [grass; bird; red2; red] in
  let resp := answer (search_images env "red rose" 3 (3 # 4) "alice" w).1 in
  ∃ cands,
    scored_candidates "red rose" (images_table w) = Return cands ∧
    let matches := List.filter (passes (3 # 4)) cands in
    total_results resp = Z.min 3 (Z.of_nat (length matches)) ∧
    (Z.of_nat (length matches) ≤ 3 →
     results resp ≡ₚ image_response <$> matches).
Proof.
  intros w resp.
  apply (search_returns_matches_up_to_limit env "red rose" 3 (3 # 4) "alice" w).
  - vm_compute. discriminate.
  - vm_compute. reflexivity.
Defined.

Lemma history_pages_tile_witness :
  let w := world_of [red; grass; bird; red2] in
  ∃ p1 p2,
    get_image_history newest_first env 1 1 "alice" w = (Return p1, w) ∧
    get_image_history newest_first env 2 (1 + 1) "alice" w = (Return p2, w) ∧
    get_image_history newest_first env (1 + 2) 1 "alice" w
      = (Return (p1 ++ p2), w) ∧
    Z.of_nat (length p1) ≤ 1 ∧
    Forall (λ r, similarity_score r = None) (p1 ++ p2).
Proof.
  intros w.
  apply (history_pages_tile newest_first env "alice" w 1 2 1);
    first [reflexivity | vm_compute; discriminate].
Defined.

Lemma clean_filename_safe_witness :
  clean_filename "my photo (1)/../x.JPG" = "my_photo__1__.._x.JPG" ∧
  String.length (clean_filename "my photo (1)/../x.JPG")
    = String.length "my photo (1)/../x.JPG" ∧
  string_forall (λ c, negb (Ascii.eqb c "/"))
    (clean_filename "my photo (1)/../x.JPG") = true.
Proof.
  destruct (clean_filename_safe "my photo (1)/../x.JPG" eq_refl)
    as (Hlen & _ & Hsep & _).
  split; [reflexivity|]. split; [exact Hlen|exact Hsep].
Defined.

Lemma register_existing_username_witness :
  register env {| uc_username := "alice"; uc_password := "rabbit-hole" |}
    (users [alice; carol])
  = (Raise (HTTPException 400 "Username already registered"),
     users [alice; carol]).
Proof.
  apply (register_existing_username env _ (users [alice; carol]) alice);
    reflexivity.
Defined.

Lemma login_failure_uniform_witness :
  login env "mallory" "wonderland" (users [alice; carol])
  = (Raise (HTTPException 401 "Incorrect username or password"),
     users [alice; carol]) ∧
  login env "alice" "rabbit-hole" (users [alice; carol])
  = (Raise (HTTPException 401 "Incorrect username or password"),
     users [alice; carol]).
Proof.
  split.
  - apply (login_failure_uniform env "mallory" "wonderland"
             (users [alice; carol])); [reflexivity|].
    left. reflexivity.
  - apply (login_failure_uniform env "alice" "rabbit-hole"
             (users [alice; carol])); [reflexivity|].
    right. exists alice. split; reflexivity.
Defined.

Lemma login_disabled_account_witness :
  login env "carol" "looking-glass" (users [alice; carol])
  = (Raise (HTTPException 401 "User account is disabled"),
     users [alice; carol]).
Proof.
  apply (login_disabled_account env "carol" "looking-glass"
           (users [alice; carol]) carol); reflexivity.
Defined.

Lemma register_then_login_witness :
  let w' := (register env bob (users [alice; carol])).2 in
  (login env "bob42" "builder" w').1 = Return "token-of-bob42-for-30" ∧
  users_table (login env "bob42" "builder" w').2 = users_table w'.
Proof.
  intros w'.
  apply (register_then_login env bob (users [alice; carol]) 3 w' env
           "hashed:builder" "token-of-bob42-for-30");
    first [reflexivity | vm_compute; reflexivity].
Defined.

(** Code points, not bytes, are counted and classified: the name of four
    characters below is five bytes long. *)
Example code_points_of_text :
  code_points "José" = [74; 111; 115; 233]%N ∧
  code_points "日本語" = [26085; 26412; 35486]%N ∧
  code_points "😀" = [128512]%N ∧
  len "José" = 4%nat ∧ String.length "José" = 5%nat.
Proof. vm_compute. done. Qed.

Example username_must_be_valid_runs :
  username_must_be_valid "José" = true ∧
  username_must_be_valid "bob42" = true ∧
  username_must_be_valid "né" = false ∧
  username_must_be_valid "bob 42" = false ∧
  username_must_be_valid "bob_42" = false ∧
  username_must_be_valid EmptyString = false.
Proof. vm_compute. done. Qed.

Example register_endpoint_runs :
  let run := register_endpoint env jose (users [alice; carol]) in
  run.1 = Return 3 ∧
  username <$> users_table run.2 = ["alice"; "carol"; "José"] ∧
  (register_endpoint env {| uc_username := "né"; uc_password := "secret1" |}
     (users [alice; carol])).1
  = Raise (HTTPException 422 "Unprocessable Entity").
Proof. vm_compute. done. Qed.

Lemma register_keeps_users_valid_witness :
  let t := [alice; carol] in
  let t' := users_table (register_endpoint env jose (users t)).2 in
  t `prefix_of` t' ∧
  NoDup (username <$> t') ∧
  NoDup (user_id <$> t') ∧
  Forall (λ u, username_must_be_valid (username u) = true) t'.
Proof.
  intros t t'.
  destruct (register_keeps_users_valid env jose (users t))
    as (Hprefix & Hnames & Hids & Hvalid).
  split_and!; [exact Hprefix|apply Hnames|apply Hids|apply Hvalid].
  - apply (bool_decide_unpack _). vm_compute. reflexivity.
  - apply (bool_decide_unpack _). vm_compute. reflexivity.
  - repeat constructor.
Defined.

End more_runs.
